(** * Asset version bookkeeping of the home renovation planner

    A shallow embedding of [tools.py]: the session state kept in
    [tool_context.state], the version helpers
    ([get_next_version_number], [update_asset_version],
    [create_versioned_filename]) and the two image tools
    ([generate_renovation_rendering], [edit_renovation_rendering]) with
    their collaborators (hosted model, artifact service, local disk)
    made explicit. *)

From Stdlib Require Import Ascii.
From stdpp Require Import base option list strings pretty gmap.

Local Open Scope Z_scope.

(** ** Python exceptions

    Only instances of [Exception] are modelled: that is what every
    [except Exception] clause of the module catches.  The class is kept
    because [save_artifact_safely] has a dedicated [AttributeError] arm,
    the message because the handlers print it. *)

Inductive exn_class := ValueError | AttributeError | IndexError | OtherException.

Record exn := Exn { exn_cls : exn_class; exn_msg : string }.

(** ** Session state ([tool_context.state])

    The state is one dictionary with string keys.  The keys the module
    uses are the fixed names below and, per asset, [f"{asset_name}_history"].
    Each slot is typed by what the module stores there; an absent key is
    [None].  The per-asset history lists live in the map [histories],
    indexed by the full key string, exactly as in the dictionary
    ([history_key_not_fixed] shows that such a key never coincides with
    one of the fixed names). *)

(** One history item, [{"version": version, "filename": filename}]. *)
Record HistoryEntry := Entry { entry_version : Z; entry_filename : string }.

Record State := mkState {
  asset_versions : option (gmap string Z);
  asset_filenames : option (gmap string string);
  histories : gmap string (list HistoryEntry);
  last_generated_rendering : option string;
  current_asset_name : option string;
  latest_reference_image : option string;
}.

(** A fresh session: no key is present. *)
Definition empty_state : State :=
  mkState None None ∅ None None None.

(** [asset_history_key = f"{asset_name}_history"] *)
Definition asset_history_key (asset_name : string) : string :=
  asset_name +:+ "_history".

Definition fixed_keys : list string :=
  ["asset_versions"; "asset_filenames"; "last_generated_rendering";
   "current_asset_name"; "latest_reference_image"; "reference_images";
   "uploaded_images"; "current_room_artifact"; "inspiration_artifact"].

(** The local disk, file name to contents, and the whole mutable world
    a tool call works on. *)
Record Sys := mkSys {
  session : State;
  disk : gmap string string;
}.

(** ** The tool monad: state plus exceptions

    A computation maps the world to a result or a raised exception,
    together with the world it leaves behind; mutations made before a
    [raise] stay, as in Python. *)

Definition Tool (A : Type) : Type := Sys → (exn + A) * Sys.

Global Instance tool_ret : MRet Tool := λ A x s, (inr x, s).

Global Instance tool_bind : MBind Tool := λ A B f m s,
  match m s with
  | (inl e, s') => (inl e, s')
  | (inr a, s') => f a s'
  end.

Definition raise {A} (e : exn) : Tool A := λ s, (inl e, s).

(** [try: body / except Exception as e: handler e] *)
Definition try_except {A} (body : Tool A) (handler : exn → Tool A) : Tool A :=
  λ s, match body s with
       | (inl e, s') => handler e s'
       | (inr a, s') => (inr a, s')
       end.

(** Lift a collaborator answer (a value or an exception) into the monad. *)
Definition lift_result {A} (r : exn + A) : Tool A :=
  match r with inl e => raise e | inr a => mret a end.

(** Read from / assign to [tool_context.state]. *)
Definition state_read {A} (f : State → A) : Tool A :=
  λ s, (inr (f (session s)), s).

Definition state_write (f : State → State) : Tool unit :=
  λ s, (inr tt, mkSys (f (session s)) (disk s)).

Definition disk_read {A} (f : gmap string string → A) : Tool A :=
  λ s, (inr (f (disk s)), s).

Definition disk_write (f : gmap string string → gmap string string) : Tool unit :=
  λ s, (inr tt, mkSys (session s) (f (disk s))).

(** ** Helper functions for asset version management *)

(** The stored current version of an asset,
    [state.get("asset_versions", {}).get(asset_name, 0)]. *)
Definition current_version_of (st : State) (asset_name : string) : Z :=
  default 0 (default ∅ (asset_versions st) !! asset_name).

Definition current_filename_of (st : State) (asset_name : string) : option string :=
  default ∅ (asset_filenames st) !! asset_name.

Definition history_of (st : State) (asset_name : string) : list HistoryEntry :=
  default [] (histories st !! asset_history_key asset_name).

Definition get_next_version_number (asset_name : string) : Tool Z :=
  asset_versions ← state_read (λ st, default ∅ (asset_versions st));
  let current_version := default 0 (asset_versions !! asset_name) in
  let next_version := current_version + 1 in
  mret next_version.

Definition set_asset_versions (m : option (gmap string Z)) (st : State) : State :=
  mkState m (asset_filenames st) (histories st)
    (last_generated_rendering st) (current_asset_name st) (latest_reference_image st).

Definition set_asset_filenames (m : option (gmap string string)) (st : State) : State :=
  mkState (asset_versions st) m (histories st)
    (last_generated_rendering st) (current_asset_name st) (latest_reference_image st).

Definition set_histories (h : gmap string (list HistoryEntry)) (st : State) : State :=
  mkState (asset_versions st) (asset_filenames st) h
    (last_generated_rendering st) (current_asset_name st) (latest_reference_image st).

Definition set_last_generated_rendering (f : string) (st : State) : State :=
  mkState (asset_versions st) (asset_filenames st) (histories st)
    (Some f) (current_asset_name st) (latest_reference_image st).

Definition set_current_asset_name (a : string) (st : State) : State :=
  mkState (asset_versions st) (asset_filenames st) (histories st)
    (last_generated_rendering st) (Some a) (latest_reference_image st).

Definition update_asset_version
    (asset_name : string) (version : Z) (filename : string) : Tool unit :=
  (* if "asset_versions" not in tool_context.state: ... = {} *)
  state_write (λ st, if asset_versions st is None
                     then set_asset_versions (Some ∅) st else st);;
  state_write (λ st, if asset_filenames st is None
                     then set_asset_filenames (Some ∅) st else st);;
  (* tool_context.state["asset_versions"][asset_name] = version *)
  state_write (λ st, set_asset_versions
                       (<[asset_name := version]> <$> asset_versions st) st);;
  state_write (λ st, set_asset_filenames
                       (<[asset_name := filename]> <$> asset_filenames st) st);;
  (* Maintain a list of all versions for this asset *)
  let asset_history_key := asset_history_key asset_name in
  state_write (λ st, if histories st !! asset_history_key is None
                     then set_histories (<[asset_history_key := []]> (histories st)) st
                     else st);;
  state_write (λ st, set_histories
                       (alter (λ h, h ++ [Entry version filename])
                              asset_history_key (histories st)) st).

(** [f"{asset_name}_v{version}.{file_extension}"]; the extension
    defaults to ["png"] at every call site. *)
Definition create_versioned_filename
    (asset_name : string) (version : Z) (file_extension : string) : string :=
  asset_name +:+ "_v" +:+ pretty version +:+ "." +:+ file_extension.

(** ** Values exchanged with the hosted model ([google.genai.types]) *)

Record Blob := mkBlob { mime_type : option string; data : option string }.
Record Part := mkPart { inline_data : option Blob; text : option string }.
Record Content := mkContent { parts : option (list Part) }.
Record Candidate := mkCandidate { content : option Content }.
Record Chunk := mkChunk { candidates : option (list Candidate) }.

Global Instance Blob_eq_dec : EqDecision Blob.
Proof. solve_decision. Defined.
Global Instance Part_eq_dec : EqDecision Part.
Proof. solve_decision. Defined.

(** [types.Part.from_text(text=t)] *)
Definition Part_from_text (t : string) : Part := mkPart None (Some t).

(** Python truthiness of an optional string or bytes value:
    [None] and the empty string are false. *)
Definition truthy (o : option string) : bool :=
  match o with
  | Some (String _ _) => true
  | _ => false
  end.

(** Truthiness of an optional integer: [None] and [0] are false. *)
Definition truthy_int (o : option Z) : bool :=
  match o with
  | Some v => negb (v =? 0)
  | None => false
  end.

(** ** Writing a file

    [with open(name, "wb") as f: f.write(data)] can raise at two places.
    When [open] itself raises, the file is as it was.  Once [open] has
    returned, the file exists and is empty; when [f.write] or the close
    raises after that, the file holds the bytes that got through. *)

Record write_failure := WriteFailure {
  (** the exception raised *)
  write_exn : exn;
  (** [None]: [open] raised; [Some n]: the file was opened and the
      first [n] bytes reached it *)
  bytes_written : option nat;
}.

(** The disk after a write of [bytes] to [name] that raised. *)
Definition failed_write (failure : write_failure) (name bytes : string)
    (d : gmap string string) : gmap string string :=
  match bytes_written failure with
  | None => d
  | Some n => <[name := String.substring 0 n bytes]> d
  end.

(** ** Collaborators

    What the surroundings answer during one tool call.  Each entry is
    the answer of one external call of the source; a raised exception is
    [inl].  Theorems quantify over every [World], so no behaviour of the
    hosted model, the artifact service or the disk is assumed. *)

Record RewriteRequest := mkRewriteRequest {
  rewrite_modifies_base : bool;
  rewrite_description : string;
  rewrite_aspect_ratio : string;
  rewrite_mentions_references : bool;
}.

Record World := mkWorld {
  (** [os.environ] *)
  os_environ : gmap string string;
  (** [genai.Client()] *)
  genai_Client : exn + unit;
  (** [await tool_context.load_artifact(filename)] *)
  load_artifact : string → exn + option Part;
  (** [mimetypes.guess_type(filename)[0]] *)
  guess_type : string → option string;
  (** opening and reading an existing file: the error raised, if any *)
  open_read_error : string → option exn;
  (** opening a file for writing and writing it: how it fails, if it does *)
  open_write_error : string → option write_failure;
  (** [client.models.generate_content(model="gemini-2.5-flash", ...).text] *)
  generate_content : RewriteRequest → exn + string;
  (** [client.models.generate_content_stream(...)]: the chunks yielded,
      then the exception that ends the iteration, if any *)
  generate_content_stream : list Part → list Chunk * option exn;
  (** [hasattr(tool_context, 'save_artifact')] *)
  has_save_artifact : bool;
  (** [await tool_context.save_artifact(filename=..., artifact=...)] *)
  save_artifact : string → Part → exn + Z;
}.

(** [load_reference_image]: every exception is swallowed. *)
Definition load_reference_image (w : World) (filename : string) : option Part :=
  match load_artifact w filename with
  | inr (Some loaded_part) => Some loaded_part
  | inr None => None
  | inl _ => None
  end.

(** [load_image_from_file]: a missing file and every exception give [None]. *)
Definition load_image_from_file (w : World) (filename : string) : Tool (option Part) :=
  file ← disk_read (λ d, d !! filename);
  match file with
  | None => mret None
  | Some image_bytes =>
      let mime_type := match guess_type w filename with
                       | Some m => if truthy (Some m) then m else "image/png"
                       | None => "image/png"
                       end in
      match open_read_error w filename with
      | Some _ => mret None
      | None => mret (Some (mkPart (Some (mkBlob (Some mime_type) (Some image_bytes))) None))
      end
  end.

Definition get_latest_reference_image_filename : Tool (option string) :=
  state_read latest_reference_image.

(** [save_artifact_safely]: [(success, version)]; never raises. *)
Definition save_artifact_safely (w : World) (filename : string) (artifact : Part)
    : bool * option Z :=
  if has_save_artifact w then
    match save_artifact w filename artifact with
    | inr artifact_version => (true, Some artifact_version)
    | inl (Exn AttributeError _) => (false, None)
    | inl (Exn _ _) => (false, None)
    end
  else (false, None).

(** [try: with open(name, "wb") as f: f.write(data) / except Exception: log] *)
Definition write_to_disk (w : World) (name : string) (bytes : string) : Tool unit :=
  match open_write_error w name with
  | None => disk_write (<[name := bytes]>)
  | Some failure => disk_write (failed_write failure name bytes)
  end.

(** ** Tool inputs (the pydantic models) *)

Record GenerateRenovationRenderingInput := mkGenerateInput {
  gen_prompt : string;
  gen_aspect_ratio : string;
  gen_asset_name : string;
  gen_current_room_photo : option string;
  gen_inspiration_image : option string;
}.

Record EditRenovationRenderingInput := mkEditInput {
  edit_artifact_filename : string;
  edit_prompt : string;
  edit_asset_name : option string;
  edit_reference_image_filename : option string;
}.

(** The framework hands over either the model object or a dictionary;
    a dictionary goes through the pydantic constructor, which validates
    it or raises. *)
Inductive tool_input (A : Type) :=
  | AsObject (x : A)
  | AsDict (validated : exn + A).
Arguments AsObject {A} x.
Arguments AsDict {A} validated.

Definition coerce_input {A} (inputs : tool_input A) : Tool A :=
  match inputs with
  | AsObject x => mret x
  | AsDict validated => lift_result validated
  end.

(** ** What a tool returns

    The tools return text.  [reply] names the return statements of the
    two tools, [reply_text] is the string each one builds. *)

Inductive reply :=
  | RenderingGenerated (artifact_filename : string) (version : Z) (asset_name : string)
  | NoRenderingGenerated
  | GenerateError (e : exn)
  | RenderingEdited (artifact_filename : string) (version : Z) (asset_name : string)
  | ImageNotFound (artifact_filename : string)
  | NoEditedRendering
  | EditError (e : exn).

Definition nl : string := String "010"%char "".

Definition reply_text (r : reply) : string :=
  match r with
  | RenderingGenerated artifact_filename version asset_name =>
      "‚úÖ Renovation rendering generated successfully!" +:+ nl +:+ nl +:+
      "Saved as: **" +:+ artifact_filename +:+ "** (version " +:+ pretty version +:+
      " of " +:+ asset_name +:+ ")"
  | NoRenderingGenerated => "No rendering was generated. Please try again."
  | GenerateError e => "An error occurred: " +:+ exn_msg e
  | RenderingEdited artifact_filename version asset_name =>
      "‚úÖ Rendering edited successfully!" +:+ nl +:+ nl +:+
      "Saved as: **" +:+ artifact_filename +:+ "** (version " +:+ pretty version +:+
      " of " +:+ asset_name +:+ ")" +:+ nl +:+ nl +:+
      "The rendering has been updated based on your feedback."
  | ImageNotFound artifact_filename =>
      "‚ùå Could not find image: " +:+ artifact_filename +:+
      ". Please ensure the image was uploaded or generated."
  | NoEditedRendering => "No edited rendering was generated. Please try again."
  | EditError e => "An error occurred while editing the rendering: " +:+ exn_msg e
  end.

(** The replies that report a committed new version. *)
Definition is_success (r : reply) : bool :=
  match r with
  | RenderingGenerated _ _ _ | RenderingEdited _ _ _ => true
  | _ => false
  end.

(** The guard both tools start with, outside their [try]. *)
Definition api_key_missing (w : World) : bool :=
  bool_decide (os_environ w !! "GEMINI_API_KEY" = None) &&
  bool_decide (os_environ w !! "GOOGLE_API_KEY" = None).

Definition api_key_error : exn :=
  Exn ValueError "GEMINI_API_KEY or GOOGLE_API_KEY environment variable not set.".

(** ** Image generation tool *)

(** The image carried by a chunk as [generate_renovation_rendering]
    reads it: candidates, content and parts must be truthy, and the
    first part must hold non-empty inline data. *)
Definition generate_chunk_image (chunk : Chunk) : option Blob :=
  match candidates chunk with
  | Some (candidate :: _) =>
      match content candidate with
      | Some c =>
          match parts c with
          | Some (part :: _) =>
              match inline_data part with
              | Some b => if truthy (data b) then Some b else None
              | None => None
              end
          | _ => None
          end
      | None => None
      end
  | _ => None
  end.

(** The block run for the first chunk that carries an image: save to
    disk, update the state, try the artifact service, commit, return. *)
Definition generate_store_image (w : World) (inputs : GenerateRenovationRenderingInput)
    (artifact_filename : string) (inline_data : Blob) : Tool reply :=
  write_to_disk w artifact_filename (default "" (data inline_data));;
  let image_part := mkPart (Some inline_data) None in
  (* Update State (always update state even if artifact service fails) *)
  version ← get_next_version_number (gen_asset_name inputs);
  state_write (set_last_generated_rendering artifact_filename);;
  state_write (set_current_asset_name (gen_asset_name inputs));;
  let '(artifact_saved, artifact_version) :=
    save_artifact_safely w artifact_filename image_part in
  (if artifact_saved && truthy_int artifact_version
   then update_asset_version (gen_asset_name inputs)
          (default 0 artifact_version) artifact_filename
   else update_asset_version (gen_asset_name inputs) version artifact_filename);;
  mret (RenderingGenerated artifact_filename version (gen_asset_name inputs)).

(** The [for chunk in ...generate_content_stream(...)] loop and the
    [return] that follows it. *)
Fixpoint generate_stream (w : World) (inputs : GenerateRenovationRenderingInput)
    (artifact_filename : string) (chunks : list Chunk) (stream_end : option exn)
    : Tool reply :=
  match chunks with
  | [] =>
      match stream_end with
      | Some e => raise e
      | None => mret NoRenderingGenerated
      end
  | chunk :: rest =>
      match generate_chunk_image chunk with
      | Some inline_data => generate_store_image w inputs artifact_filename inline_data
      | None => generate_stream w inputs artifact_filename rest stream_end
      end
  end.

(** Try loading as artifact first, then as file. *)
Definition load_artifact_or_file (w : World) (name : string) : Tool (option Part) :=
  match load_reference_image w name with
  | Some p => mret (Some p)
  | None => load_image_from_file w name
  end.

(** The [try] block up to the stream request: the validated inputs and
    the content parts sent to the image model. *)
Definition generate_prepare (w : World)
    (inputs : tool_input GenerateRenovationRenderingInput)
    : Tool (GenerateRenovationRenderingInput * list Part) :=
  lift_result (genai_Client w);;
  inputs ← coerce_input inputs;
  (* Handle reference images *)
  current_room_part ←
    (if truthy (gen_current_room_photo inputs)
     then load_artifact_or_file w (default "" (gen_current_room_photo inputs))
     else mret None);
  let reference_images := option_list current_room_part in
  inspiration_part ←
    (if truthy (gen_inspiration_image inputs) then
       insp_filename ←
         (if bool_decide (gen_inspiration_image inputs = Some "latest")
          then get_latest_reference_image_filename
          else mret (gen_inspiration_image inputs));
       if truthy insp_filename
       then load_artifact_or_file w (default "" insp_filename)
       else mret None
     else mret None);
  let reference_images := reference_images ++ option_list inspiration_part in
  (* Build the enhanced prompt *)
  let has_base_image := bool_decide (is_Some (gen_current_room_photo inputs)) in
  let base_rewrite_prompt :=
    mkRewriteRequest has_base_image (gen_prompt inputs) (gen_aspect_ratio inputs)
      (if has_base_image then truthy (gen_inspiration_image inputs)
       else bool_decide (reference_images ≠ [])) in
  rewritten_prompt ← lift_result (generate_content w base_rewrite_prompt);
  (* Prepare Image Generation *)
  let content_parts :=
    match current_room_part with
    | Some base =>
        if has_base_image
        then base :: Part_from_text rewritten_prompt ::
             filter (λ ref_img, ref_img ≠ base) reference_images
        else Part_from_text rewritten_prompt :: reference_images
    | None => Part_from_text rewritten_prompt :: reference_images
    end in
  mret (inputs, content_parts).

(** The body of the [try] block. *)
Definition generate_body (w : World)
    (inputs : tool_input GenerateRenovationRenderingInput) : Tool reply :=
  '(inputs, content_parts) ← generate_prepare w inputs;
  (* Generate Filename *)
  version ← get_next_version_number (gen_asset_name inputs);
  let artifact_filename := create_versioned_filename (gen_asset_name inputs) version "png" in
  (* Generate Stream *)
  let '(chunks, stream_end) := generate_content_stream w content_parts in
  generate_stream w inputs artifact_filename chunks stream_end.

Definition generate_renovation_rendering (w : World)
    (inputs : tool_input GenerateRenovationRenderingInput) : Tool reply :=
  if api_key_missing w then raise api_key_error
  else try_except (generate_body w inputs) (λ e, mret (GenerateError e)).

(** ** Image editing tool *)

(** [needle in s] for strings. *)
Fixpoint contains (needle s : string) : bool :=
  if String.prefix needle s then true
  else match s with
       | "" => false
       | String _ s' => contains needle s'
       end.

(** [s.split(sep)[0]] for a non-empty separator: the text up to the
    first place where [sep] starts, the whole string when there is none. *)
Fixpoint split_head (sep s : string) : string :=
  if String.prefix sep s then ""
  else match s with
       | "" => ""
       | String c s' => String c (split_head sep s')
       end.

(** Determine asset name (the [if inputs.asset_name: ... else: ...] block). *)
Definition resolve_asset_name (inputs : EditRenovationRenderingInput) : Tool string :=
  if truthy (edit_asset_name inputs) then
    mret (default "" (edit_asset_name inputs))
  else
    current_asset_name ← state_read current_asset_name;
    if truthy current_asset_name then
      mret (default "" current_asset_name)
    else
      (* Extract from filename *)
      let base_name :=
        if contains "_v" (edit_artifact_filename inputs)
        then split_head "_v" (edit_artifact_filename inputs)
        else "renovation_rendering" in
      mret base_name.

(** How [edit_renovation_rendering] reads a chunk: [inr None] is a chunk
    without image ([continue] or the logging branch); indexing an empty
    list raises [IndexError]. *)
Definition index_error : exn := Exn IndexError "list index out of range".

Definition edit_chunk_image (chunk : Chunk) : exn + option Blob :=
  match candidates chunk with
  | None => inr None
  | Some [] => inl index_error
  | Some (candidate :: _) =>
      match content candidate with
      | None => inr None
      | Some c =>
          match parts c with
          | None => inr None
          | Some [] => inl index_error
          | Some (part :: _) =>
              match inline_data part with
              | Some b => if truthy (data b) then inr (Some b) else inr None
              | None => inr None
              end
          end
      end
  end.

(** The block run for the first chunk that carries an image. *)
Definition edit_store_image (w : World) (asset_name edited_artifact_filename : string)
    (inline_data : Blob) : Tool reply :=
  let edited_image_part := mkPart (Some inline_data) None in
  (* Save to disk first *)
  write_to_disk w edited_artifact_filename (default "" (data inline_data));;
  (* Update version tracking *)
  version ← get_next_version_number asset_name;
  update_asset_version asset_name version edited_artifact_filename;;
  (* Store in session state *)
  state_write (set_last_generated_rendering edited_artifact_filename);;
  state_write (set_current_asset_name asset_name);;
  let '(artifact_saved, artifact_version) :=
    save_artifact_safely w edited_artifact_filename edited_image_part in
  mret (RenderingEdited edited_artifact_filename version asset_name).

(** The [for chunk in ...] loop of the edit tool and the [return] after it. *)
Fixpoint edit_stream (w : World) (asset_name edited_artifact_filename : string)
    (chunks : list Chunk) (stream_end : option exn) : Tool reply :=
  match chunks with
  | [] =>
      match stream_end with
      | Some e => raise e
      | None => mret NoEditedRendering
      end
  | chunk :: rest =>
      image ← lift_result (edit_chunk_image chunk);
      match image with
      | Some inline_data =>
          edit_store_image w asset_name edited_artifact_filename inline_data
      | None => edit_stream w asset_name edited_artifact_filename rest stream_end
      end
  end.

(** Load the existing rendering - try artifact first, then file. *)
Definition load_source_image (w : World) (artifact_filename : string)
    : Tool (option Part) :=
  let loaded_image_part :=
    match load_artifact w artifact_filename with
    | inr loaded => loaded
    | inl _ => None
    end in
  match loaded_image_part with
  | Some p => mret (Some p)
  | None => load_image_from_file w artifact_filename
  end.

(** The [try] block from the reference image to the stream, once the
    image to edit is loaded. *)
Definition edit_loaded (w : World) (inputs : EditRenovationRenderingInput)
    (loaded_image_part : Part) : Tool reply :=
  (* Handle reference image if specified *)
  reference_image_part ←
    (if truthy (edit_reference_image_filename inputs) then
       ref_filename ←
         (if bool_decide (edit_reference_image_filename inputs = Some "latest")
          then get_latest_reference_image_filename
          else mret (edit_reference_image_filename inputs));
       if truthy ref_filename
       then mret (load_reference_image w (default "" ref_filename))
       else mret None
     else mret None);
  (* Build content parts *)
  let content_parts :=
    [loaded_image_part; Part_from_text (edit_prompt inputs)]
    ++ option_list reference_image_part in
  (* Determine asset name and generate versioned filename *)
  asset_name ← resolve_asset_name inputs;
  version ← get_next_version_number asset_name;
  let edited_artifact_filename := create_versioned_filename asset_name version "png" in
  (* Edit the image *)
  let '(chunks, stream_end) := generate_content_stream w content_parts in
  edit_stream w asset_name edited_artifact_filename chunks stream_end.

(** The body of the [try] block. *)
Definition edit_body (w : World)
    (inputs : tool_input EditRenovationRenderingInput) : Tool reply :=
  lift_result (genai_Client w);;
  inputs ← coerce_input inputs;
  loaded_image_part ← load_source_image w (edit_artifact_filename inputs);
  match loaded_image_part with
  | None => mret (ImageNotFound (edit_artifact_filename inputs))
  | Some loaded_image_part => edit_loaded w inputs loaded_image_part
  end.

Definition edit_renovation_rendering (w : World)
    (inputs : tool_input EditRenovationRenderingInput) : Tool reply :=
  if api_key_missing w then raise api_key_error
  else try_except (edit_body w inputs) (λ e, mret (EditError e)).

(** ** Sessions: a series of tool calls on one state *)

Inductive call :=
  | CallGenerate (w : World) (inputs : tool_input GenerateRenovationRenderingInput)
  | CallEdit (w : World) (inputs : tool_input EditRenovationRenderingInput).

Definition run_call (c : call) : Tool reply :=
  match c with
  | CallGenerate w inputs => generate_renovation_rendering w inputs
  | CallEdit w inputs => edit_renovation_rendering w inputs
  end.

(** Run the calls in order; an exception that escapes a tool ends only
    that call.  The outcomes are returned oldest first. *)
Fixpoint run_calls (cs : list call) (s : Sys) : list (exn + reply) * Sys :=
  match cs with
  | [] => ([], s)
  | c :: cs' =>
      let '(out, s') := run_call c s in
      let '(outs, s'') := run_calls cs' s' in
      (out :: outs, s'')
  end.

(** The commit an outcome reports for [asset_name], if any. *)
Definition commits_to (asset_name : string) (out : exn + reply) : bool :=
  match out with
  | inr (RenderingGenerated _ _ a) | inr (RenderingEdited _ _ a) =>
      bool_decide (a = asset_name)
  | _ => false
  end.


(** ** Vocabulary of the statements *)

(** The inputs a call works with once validated. *)
Definition parsed {A} (inputs : tool_input A) : exn + A :=
  match inputs with
  | AsObject x => inr x
  | AsDict validated => validated
  end.

(** Whether an outcome reports a committed new version. *)
Definition succeeded (out : exn + reply) : bool :=
  match out with
  | inr r => is_success r
  | inl _ => false
  end.

(** What the generation loop finds in a stream: the exception that ends
    it, no image at all, or the first image. *)
Fixpoint generate_scan (chunks : list Chunk) (stream_end : option exn)
    : exn + option Blob :=
  match chunks with
  | [] => match stream_end with Some e => inl e | None => inr None end
  | chunk :: rest =>
      match generate_chunk_image chunk with
      | Some b => inr (Some b)
      | None => generate_scan rest stream_end
      end
  end.

(** The same for the edit loop, whose chunk test can raise. *)
Fixpoint edit_scan (chunks : list Chunk) (stream_end : option exn)
    : exn + option Blob :=
  match chunks with
  | [] => match stream_end with Some e => inl e | None => inr None end
  | chunk :: rest =>
      match edit_chunk_image chunk with
      | inl e => inl e
      | inr (Some b) => inr (Some b)
      | inr None => edit_scan rest stream_end
      end
  end.

(** The same surroundings with another artifact service. *)
Definition with_artifact_service (w : World)
    (has : bool) (save : string → Part → exn + Z) : World :=
  mkWorld (os_environ w) (genai_Client w) (load_artifact w) (guess_type w)
    (open_read_error w) (open_write_error w) (generate_content w)
    (generate_content_stream w) has save.


(** The artifact service never hands back a version the generation
    tool would use: it is unavailable, fails, or reports version [0]. *)
Definition artifact_version_unused (w : World) : Prop :=
  ∀ filename artifact,
    (save_artifact_safely w filename artifact).1
    && truthy_int (save_artifact_safely w filename artifact).2 = false.

Definition commits_local_version (c : call) : Prop :=
  match c with
  | CallGenerate w _ => artifact_version_unused w
  | CallEdit _ _ => True
  end.

(** The versions recorded in a history, oldest first. *)
Definition history_versions (st : State) (asset_name : string) : list Z :=
  entry_version <$> history_of st asset_name.

(** Number of outcomes that report a commit for [asset_name]. *)
Definition commit_count (asset_name : string) (outs : list (exn + reply)) : nat :=
  length (filter (λ out, commits_to asset_name out = true) outs).

(** A computation that leaves the world as it found it. *)
Definition readonly {A} (m : Tool A) : Prop := ∀ s, (m s).2 = s.

(** [s'] is [s] after the commit of [(v, f)] for asset [a]. *)
Record committed (s s' : Sys) (a : string) (v : Z) (f : string) : Prop := {
  committed_version b :
    current_version_of (session s') b
    = if decide (b = a) then v else current_version_of (session s) b;
  committed_filename b :
    current_filename_of (session s') b
    = if decide (b = a) then Some f else current_filename_of (session s) b;
  committed_history b :
    history_of (session s') b
    = if decide (b = a) then history_of (session s) a ++ [Entry v f]
      else history_of (session s) b;
  committed_current_asset : current_asset_name (session s') = Some a;
  committed_last_rendering : last_generated_rendering (session s') = Some f;
}.

(** The version the generation tool commits: the artifact service's
    when a save succeeded with a truthy version, else its own. *)
Definition generate_committed_version (w : World) (artifact_filename : string)
    (inline_data : Blob) (version : Z) : Z :=
  let saved := save_artifact_safely w artifact_filename (mkPart (Some inline_data) None) in
  if saved.1 && truthy_int saved.2 then default 0 saved.2 else version.

(** The disk after the tools' guarded write. *)
Definition disk_after_write (w : World) (name : string) (inline_data : Blob)
    (d : gmap string string) : gmap string string :=
  match open_write_error w name with
  | None => <[name := default "" (data inline_data)]> d
  | Some failure => failed_write failure name (default "" (data inline_data)) d
  end.

(** The asset name an edit resolves to, as a function of the inputs and
    the state: the name given in the inputs; else the state's current
    asset name; else the artifact file name up to its first ["_v"];
    else the fixed default.  Empty names count as not given. *)
Definition resolved_asset_name (inputs : EditRenovationRenderingInput) (st : State)
    : string :=
  match edit_asset_name inputs with
  | Some (String c n) => String c n
  | _ =>
      match current_asset_name st with
      | Some (String c n) => String c n
      | _ =>
          if contains "_v" (edit_artifact_filename inputs)
          then split_head "_v" (edit_artifact_filename inputs)
          else "renovation_rendering"
      end
  end.

(** The image to edit can be loaded neither as an artifact nor from
    the disk. *)
Definition image_unavailable (w : World) (s : Sys) (artifact_filename : string) : Prop :=
  (load_artifact w artifact_filename = inr None
   ∨ ∃ e, load_artifact w artifact_filename = inl e)
  ∧ (disk s !! artifact_filename = None
     ∨ ∃ e, open_read_error w artifact_filename = Some e).

(** The content parts the edit tool sends: the image to edit, the
    prompt and the reference image, if one is named and loads. *)
Definition edit_content_parts (w : World) (inputs : EditRenovationRenderingInput)
    (loaded_image_part : Part) (st : State) : list Part :=
  let reference_image_part :=
    if truthy (edit_reference_image_filename inputs) then
      let ref_filename :=
        if bool_decide (edit_reference_image_filename inputs = Some "latest")
        then latest_reference_image st
        else edit_reference_image_filename inputs in
      if truthy ref_filename
      then load_reference_image w (default "" ref_filename)
      else None
    else None in
  [loaded_image_part; Part_from_text (edit_prompt inputs)]
  ++ option_list reference_image_part.

(** The commit is refused: the asset's history, current version and
    current file name are what they were. *)
Definition commit_rejected (s : Sys) (asset_name : string) (version : Z)
    (filename : string) : Prop :=
  let st' := session (update_asset_version asset_name version filename s).2 in
  history_of st' asset_name = history_of (session s) asset_name
  ∧ current_version_of st' asset_name = current_version_of (session s) asset_name
  ∧ current_filename_of st' asset_name = current_filename_of (session s) asset_name.

(** Every history lists the versions [1 .. current version]. *)
Definition contiguous (st : State) : Prop :=
  ∀ a, 0 ≤ current_version_of st a
       ∧ history_versions st a = seqZ 1 (current_version_of st a).

(** An asset without history has no current version. *)
Definition unknown_without_history (st : State) : Prop :=
  ∀ a, history_of st a = [] → current_version_of st a = 0.

(** [sep] occurs in [s]. *)
Definition occurs (sep s : string) : Prop := ∃ p q, s = p +:+ sep +:+ q.

(** [base] is the portion of [s] before the first occurrence of [sep]. *)
Definition before_first (sep s base : string) : Prop :=
  (∃ rest, s = base +:+ sep +:+ rest)
  ∧ ∀ p q, s = p +:+ sep +:+ q → (String.length base ≤ String.length p)%nat.

(** A name is set: present and not empty (Python truthiness). *)
Definition name_is_set (o : option string) : Prop := ∃ n, o = Some n ∧ n ≠ "".

(** ** A sample session *)

Definition fresh_session : Sys := mkSys empty_state ∅.

Definition sample_image : Blob := mkBlob (Some "image/png") (Some "PNG").

Definition image_chunk : Chunk :=
  mkChunk (Some [mkCandidate (Some (mkContent (Some [mkPart (Some sample_image) None])))]).

Definition text_chunk : Chunk :=
  mkChunk (Some [mkCandidate (Some (mkContent (Some [mkPart None (Some "working")])))]).

(** Surroundings with an API key, no stored artifacts, a writable disk,
    the given model stream and the given artifact service. *)
Definition sample_world (chunks : list Chunk) (stream_end : option exn)
    (has : bool) (save : exn + Z) : World :=
  mkWorld {["GEMINI_API_KEY" := "secret"]} (inr tt) (λ _, inr None) (λ _, None)
    (λ _, None) (λ _, None) (λ _, inr "a bright modern kitchen")
    (λ _, (chunks, stream_end)) has (λ _ _, save).

(** The same without any API key in the environment. *)
Definition world_without_key : World :=
  mkWorld ∅ (inr tt) (λ _, inr None) (λ _, None)
    (λ _, None) (λ _, None) (λ _, inr "a bright modern kitchen")
    (λ _, ([image_chunk], None)) false (λ _ _, inr 0).

Definition kitchen_request : GenerateRenovationRenderingInput :=
  mkGenerateInput "a modern kitchen" "16:9" "kitchen_renovation" None None.

Definition kitchen_edit : EditRenovationRenderingInput :=
  mkEditInput "kitchen_renovation_v1.png" "make the cabinets cream" None None.

(** A generation whose artifact save answers version 7. *)
Definition session_with_artifact_version : list call :=
  [CallGenerate (sample_world [image_chunk] None true (inr 7)) (AsObject kitchen_request)].

(** A generation (artifact save answers version 0) followed by an edit
    of its result (no artifact service). *)
Definition session_generate_then_edit : list call :=
  [CallGenerate (sample_world [text_chunk; image_chunk] None true (inr 0))
     (AsObject kitchen_request);
   CallEdit (sample_world [image_chunk] None false (inr 0)) (AsObject kitchen_edit)].

(** The state after the first call of [session_generate_then_edit]. *)
Definition session_after_generate : Sys :=
  (run_calls (take 1 session_generate_then_edit) fresh_session).2.

(** Surroundings whose model stream breaks off before any image. *)
Definition overloaded_world : World :=
  sample_world [text_chunk] (Some (Exn OtherException "503 UNAVAILABLE")) true (inr 3).

(** Surroundings whose artifact service raises on every save. *)
Definition failing_artifact_world : World :=
  sample_world [image_chunk] None true
    (inl (Exn OtherException "Artifact service is not initialized")).

(** An edit request that names neither an asset nor a reference image. *)
Definition edit_of (artifact_filename : string) : EditRenovationRenderingInput :=
  mkEditInput artifact_filename "make the cabinets cream" None None.

(** The world after a tool stored an image: version [v] and file name
    [f] committed for asset [a], [a] and [f] made the current asset and
    the last rendering, the disk replaced by [d]. *)
Definition committed_state (s : Sys) (a : string) (v : Z) (f : string)
    (d : gmap string string) : Sys :=
  mkSys
    (mkState
       (Some (<[a := v]> (default ∅ (asset_versions (session s)))))
       (Some (<[a := f]> (default ∅ (asset_filenames (session s)))))
       (<[asset_history_key a := history_of (session s) a ++ [Entry v f]]>
          (histories (session s)))
       (Some f) (Some a) (latest_reference_image (session s)))
    d.

(** Whether the version map has an entry for an asset. *)
Definition known_version (st : State) (asset_name : string) : option Z :=
  default ∅ (asset_versions st) !! asset_name.

(** The version map, the file name map and the histories agree: an
    asset has a version exactly if it has a file name and a non-empty
    history, and they are those of the last history entry. *)
Definition store_consistent (st : State) : Prop :=
  ∀ a, match last (history_of st a) with
       | Some e => known_version st a = Some (entry_version e)
                   ∧ current_filename_of st a = Some (entry_filename e)
       | None => known_version st a = None ∧ current_filename_of st a = None
       end.

(** The history of every asset is the list of its versions [1 .. n],
    each with the file name made from it. *)
Definition histories_canonical (st : State) : Prop :=
  ∀ a, history_of st a
       = (λ k, Entry k (create_versioned_filename a k "png"))
           <$> seqZ 1 (current_version_of st a).

(** The current asset and the last rendering go together. *)
Definition current_asset_consistent (st : State) : Prop :=
  match current_asset_name st with
  | Some a => ∃ f, last_generated_rendering st = Some f
                   ∧ current_filename_of st a = Some f
  | None => last_generated_rendering st = None ∧ asset_versions st = None
  end.

(** The surroundings a call runs in, and the file its outcome reports. *)
Definition call_world (c : call) : World :=
  match c with
  | CallGenerate w _ | CallEdit w _ => w
  end.

Definition reported_file (out : exn + reply) : option string :=
  match out with
  | inr (RenderingGenerated f _ _) | inr (RenderingEdited f _ _) => Some f
  | _ => None
  end.

Definition reported_asset (out : exn + reply) : option string :=
  match out with
  | inr (RenderingGenerated _ _ a) | inr (RenderingEdited _ _ a) => Some a
  | _ => None
  end.

(** The request a call sends to the image model: the asset it works on
    and the content parts.  [None] when the call ends before it asks the
    image model: no API key, no client, invalid inputs, a prompt rewrite
    that raises, no image to edit. *)
Definition stream_request (c : call) (s : Sys) : option (string * list Part) :=
  match c with
  | CallGenerate w inputs =>
      if api_key_missing w then None
      else match (generate_prepare w inputs s).1 with
           | inr (i, content_parts) => Some (gen_asset_name i, content_parts)
           | inl _ => None
           end
  | CallEdit w inputs =>
      if api_key_missing w then None
      else match genai_Client w, parsed inputs with
           | inr _, inr i =>
               match (load_source_image w (edit_artifact_filename i) s).1 with
               | inr (Some loaded_image_part) =>
                   Some (resolved_asset_name i (session s),
                         edit_content_parts w i loaded_image_part (session s))
               | _ => None
               end
           | _, _ => None
           end
  end.

(** What the loop of the call finds in the image model's answer to
    [content_parts]: the exception that ends the loop, no image, or the
    first image. *)
Definition stream_result (c : call) (content_parts : list Part) : exn + option Blob :=
  let answer := generate_content_stream (call_world c) content_parts in
  match c with
  | CallGenerate _ _ => generate_scan answer.1 answer.2
  | CallEdit _ _ => edit_scan answer.1 answer.2
  end.

(** The three replies a call can give once it has asked the image model. *)
Definition success_reply (c : call) (f : string) (v : Z) (a : string) : reply :=
  match c with
  | CallGenerate _ _ => RenderingGenerated f v a
  | CallEdit _ _ => RenderingEdited f v a
  end.

Definition no_image_reply (c : call) : reply :=
  match c with
  | CallGenerate _ _ => NoRenderingGenerated
  | CallEdit _ _ => NoEditedRendering
  end.

Definition error_reply (c : call) (e : exn) : reply :=
  match c with
  | CallGenerate _ _ => GenerateError e
  | CallEdit _ _ => EditError e
  end.

(** The version a successful call commits. *)
Definition version_committed_by (c : call) (f : string) (blob : Blob) (v : Z) : Z :=
  match c with
  | CallGenerate w _ => generate_committed_version w f blob v
  | CallEdit _ _ => v
  end.

(** The [try] block of a call. *)
Definition call_body (c : call) : Tool reply :=
  match c with
  | CallGenerate w inputs => generate_body w inputs
  | CallEdit w inputs => edit_body w inputs
  end.


(** Surroundings whose artifact service answers version 7 on every save. *)
Definition versioning_artifact_world : World :=
  sample_world [image_chunk] None true (inr 7).

(** What a chunk must look like for the edit tool's test to raise. *)
Definition chunk_breaks_edit (chunk : Chunk) : Prop :=
  candidates chunk = Some []
  ∨ ∃ candidate rest c,
      candidates chunk = Some (candidate :: rest)
      ∧ content candidate = Some c ∧ parts c = Some [].

(** A chunk with an empty candidate list. *)
Definition empty_candidates_chunk : Chunk := mkChunk (Some []).

(** ** Cost estimates ([agent.py])

    [str.lower] is Python's; it is a parameter of the definitions that
    call it, so that nothing is assumed about non-ASCII text.
    [ascii_lower] is what it does on ASCII text. *)

Definition ascii_lower_char (c : ascii) : ascii :=
  let n := Ascii.nat_of_ascii c in
  if (65 <=? n)%nat && (n <=? 90)%nat then Ascii.ascii_of_nat (n + 32) else c.

Fixpoint ascii_lower (s : string) : string :=
  match s with
  | "" => ""
  | String c s' => String (ascii_lower_char c) (ascii_lower s')
  end.

(** [s.replace(old, new)] for single characters. *)
Fixpoint replace_char (old new : ascii) (s : string) : string :=
  match s with
  | "" => ""
  | String c s' =>
      String (if decide (c = old) then new else c) (replace_char old new s')
  end.

(** One row of the table: cost per square foot, (low, high), by scope. *)
Definition scope_rates (cosmetic moderate full luxury : Z * Z) : gmap string (Z * Z) :=
  <["cosmetic" := cosmetic]> (<["moderate" := moderate]>
    (<["full" := full]> (<["luxury" := luxury]> ∅))).

(** Cost per sq ft estimates (2024 ranges) *)
Definition rates : gmap string (gmap string (Z * Z)) :=
  <["kitchen" := scope_rates (50, 100) (150, 250) (300, 500) (600, 1200)]>
  (<["bathroom" := scope_rates (75, 125) (200, 350) (400, 600) (800, 1500)]>
  (<["bedroom" := scope_rates (30, 60) (75, 150) (150, 300) (400, 800)]>
  (<["living_room" := scope_rates (40, 80) (100, 200) (200, 400) (500, 1000)]> ∅))).

(** What the returned text is made of. *)
Record CostEstimate := mkCostEstimate {
  total_low : Z;
  total_high : Z;
  estimate_scope_level : string;
  estimate_room_type : string;
  estimate_square_footage : Z;
}.

(** [f"{n:,}"] for an integer: the decimal digits in groups of three. *)
Fixpoint group_thousands (reversed_digits : list ascii) : list ascii :=
  match reversed_digits with
  | d0 :: d1 :: d2 :: rest =>
      match rest with
      | [] => [d0; d1; d2]
      | _ :: _ => d0 :: d1 :: d2 :: ","%char :: group_thousands rest
      end
  | digits => digits
  end.

Definition format_thousands (n : Z) : string :=
  (if bool_decide (n < 0) then "-" else "")
  +:+ String.string_of_list_ascii
        (reverse (group_thousands
                    (reverse (String.list_ascii_of_string (pretty (Z.abs n)))))).

Definition cost_estimate_text (e : CostEstimate) : string :=
  "💰 Estimated Cost: $" +:+ format_thousands (total_low e) +:+ " - $"
  +:+ format_thousands (total_high e) +:+ " (" +:+ estimate_scope_level e
  +:+ " " +:+ estimate_room_type e +:+ " renovation, ~"
  +:+ pretty (estimate_square_footage e) +:+ " sq ft)".

Section cost_estimates.

Variable str_lower : string → string.

(** The numbers of [estimate_renovation_cost]; [None] stands for the
    [KeyError] of a failed [rates[room][scope_level]]. *)
Definition cost_estimate (room_type scope : string) (square_footage : Z)
    : option CostEstimate :=
  let room := replace_char " " "_" (str_lower room_type) in
  let scope_level := str_lower scope in
  let room := if rates !! room is None then "living_room" else room in
  row ← rates !! room;
  let scope_level := if row !! scope_level is None then "moderate" else scope_level in
  '(low, high) ← row !! scope_level;
  let total_low := low * square_footage in
  let total_high := high * square_footage in
  Some (mkCostEstimate total_low total_high scope_level room_type square_footage).

Definition estimate_renovation_cost (room_type scope : string) (square_footage : Z)
    : option string :=
  cost_estimate_text <$> cost_estimate room_type scope square_footage.

(** The place of a scope in the ladder cosmetic, moderate, full,
    luxury; a scope that is none of them counts as moderate, as in
    [cost_estimate]. *)
Definition scope_rank (scope : string) : nat :=
  let scope_level := str_lower scope in
  if decide (scope_level = "cosmetic") then 0
  else if decide (scope_level = "full") then 2
  else if decide (scope_level = "luxury") then 3
  else 1.

End cost_estimates.

(** ** Running the agent with retries ([frontend.py]) *)

Definition MAX_RETRIES : nat := 3.
Definition RETRY_DELAY : Z := 5.

(** What the loop shows to the user. *)
Inductive notice :=
  | ServerBusy (wait_time : Z)
  | ServersOverloaded
  | ErrorOccurred (e : exn).

(** The variables of the loop, with the pauses slept and the attempts
    started so far. *)
Record RetryState := mkRetryState {
  final_response : string;
  error_occurred : bool;
  slept : list Z;
  notices : list notice;
  attempts_started : nat;
}.

Section retries.

Variable str_lower : string → string.

(** [ "503" in error_str or "overloaded" in error_str.lower() ] *)
Definition is_overloaded (e : exn) : bool :=
  let error_str := exn_msg e in
  contains "503" error_str || contains "overloaded" (str_lower error_str).

(** [for attempt in range(MAX_RETRIES): try: ... except Exception as e: ...];
    [run attempt] is what [asyncio.run(run_agent_conversation())] does in
    that attempt, [remaining] the iterations left. *)
Fixpoint retry_loop (run : nat → exn + string) (remaining attempt : nat)
    (st : RetryState) : RetryState :=
  match remaining with
  | O => st
  | S remaining' =>
      let started := S (attempts_started st) in
      match run attempt with
      | inr response =>
          (* final_response = ...; error_occurred = False; break *)
          mkRetryState response false (slept st) (notices st) started
      | inl e =>
          if is_overloaded e then
            if (attempt <? MAX_RETRIES - 1)%nat then
              let wait_time := RETRY_DELAY * (Z.of_nat attempt + 1) in
              retry_loop run remaining' (S attempt)
                (mkRetryState (final_response st) (error_occurred st)
                   (slept st ++ [wait_time])
                   (notices st ++ [ServerBusy wait_time]) started)
            else
              retry_loop run remaining' (S attempt)
                (mkRetryState (final_response st) true (slept st)
                   (notices st ++ [ServersOverloaded]) started)
          else
            (* error_occurred = True; break *)
            mkRetryState (final_response st) true (slept st)
              (notices st ++ [ErrorOccurred e]) started
      end
  end.

Definition run_with_retries (run : nat → exn + string) : RetryState :=
  retry_loop run MAX_RETRIES 0 (mkRetryState "" false [] [] 0).

(** Whether the image detection that follows the loop runs:
    [if not error_occurred and final_response]. *)
Definition shows_response (st : RetryState) : bool :=
  negb (error_occurred st) && truthy (Some (final_response st)).

End retries.

(** Sample attempts: overloaded twice, then an answer. *)
Definition busy_then_answer (attempt : nat) : exn + string :=
  if (attempt <? 2)%nat
  then inl (Exn OtherException "503 UNAVAILABLE. The model is overloaded.")
  else inr "Saved as: **kitchen_renovation_v1.png**".

(** ** The image gallery of the front end ([frontend.py], sidebar)

    [st.session_state.uploaded_images], [image_categories] and
    [image_artifacts], with the disk the uploads are saved to.  The
    sidebar code runs on user events: files in the uploader, the
    category select boxes, a Remove button, the Clear All button. *)

Record UploadedFile := mkUploadedFile {
  file_name : string;
  file_buffer : string;
  file_size : Z;
}.

Record ImageInfo := mkImageInfo {
  image_name : string;
  image_path : string;
  image_size : Z;
}.

Record Gallery := mkGallery {
  uploaded_images : list ImageInfo;
  image_categories : gmap string string;
  image_artifacts : option (gmap string string);
  gallery_disk : gmap string string;
}.

(** The session state before anything was uploaded. *)
Definition empty_gallery (d : gmap string string) : Gallery := mkGallery [] ∅ None d.

(** The options of the category select box. *)
Inductive category := CurrentRoom | Inspiration | Reference.

Definition category_name (c : category) : string :=
  match c with
  | CurrentRoom => "current_room"
  | Inspiration => "inspiration"
  | Reference => "reference"
  end.

Definition category_options : list string :=
  category_name <$> [CurrentRoom; Inspiration; Reference].

(** [options.index(x)]; [None] is the [ValueError] of a missing value. *)
Fixpoint list_index (x : string) (options : list string) : option nat :=
  match options with
  | [] => None
  | y :: rest => if decide (x = y) then Some 0%nat else S <$> list_index x rest
  end.

Definition value_error : exn := Exn ValueError "value is not in list".

Section gallery.

(** [os.path.join(os.getcwd(), name)] *)
Variable save_path_of : string → string.
(** how writing a file fails, if it does; whether removing one fails *)
Variable write_error : string → option write_failure.
Variable remove_fails : string → bool.

(** One round of the upload loop: the exception raised, if any, and
    the gallery it leaves.  The write is not guarded: when it raises,
    nothing is registered, and the disk holds what the write left. *)
Definition upload_file (uploaded_file : UploadedFile) (g : Gallery)
    : option exn * Gallery :=
  (* Check if already uploaded *)
  if bool_decide (file_name uploaded_file ∈ image_name <$> uploaded_images g)
  then (None, g)
  else
    (* Save locally *)
    let save_path := save_path_of (file_name uploaded_file) in
    match write_error save_path with
    | Some failure =>
        (Some (write_exn failure),
         mkGallery (uploaded_images g) (image_categories g) (image_artifacts g)
           (failed_write failure save_path (file_buffer uploaded_file)
              (gallery_disk g)))
    | None =>
        (None,
         mkGallery
           (uploaded_images g
            ++ [mkImageInfo (file_name uploaded_file) save_path
                  (file_size uploaded_file)])
           (<[file_name uploaded_file := "current_room"]> (image_categories g))
           (Some (<[file_name uploaded_file := save_path]>
                    (default ∅ (image_artifacts g))))
           (<[save_path := file_buffer uploaded_file]> (gallery_disk g)))
    end.

(** [for uploaded_file in uploaded_files: ...]; an exception ends the
    script run and leaves what earlier rounds did. *)
Fixpoint upload_files (uploaded_files : list UploadedFile) (g : Gallery)
    : option exn * Gallery :=
  match uploaded_files with
  | [] => (None, g)
  | uploaded_file :: rest =>
      match upload_file uploaded_file g with
      | (Some e, g') => (Some e, g')
      | (None, g') => upload_files rest g'
      end
  end.

(** The select boxes: for each image, the box opens at the index of the
    stored category and the chosen option is stored back.  A failing
    [index] ends the script run; the categories stored before stay. *)
Fixpoint categorize_images (chosen : string → category) (images : list ImageInfo)
    (categories : gmap string string) : option exn * gmap string string :=
  match images with
  | [] => (None, categories)
  | img_info :: rest =>
      let img_name := image_name img_info in
      match list_index (default "current_room" (categories !! img_name))
              category_options with
      | None => (Some value_error, categories)
      | Some _ =>
          categorize_images chosen rest
            (<[img_name := category_name (chosen img_name)]> categories)
      end
  end.

Definition categorize (chosen : string → category) (g : Gallery) : option exn * Gallery :=
  let '(raised, categories) :=
    categorize_images chosen (uploaded_images g) (image_categories g) in
  (raised, mkGallery (uploaded_images g) categories (image_artifacts g) (gallery_disk g)).

(** [try: if os.path.exists(path): os.remove(path) / except: pass] *)
Definition remove_file (path : string) (d : gmap string string) : gmap string string :=
  if remove_fails path then d else delete path d.

(** A Remove button. *)
Definition remove_image (img_info : ImageInfo) (g : Gallery) : Gallery :=
  mkGallery
    (filter (λ img, image_name img ≠ image_name img_info) (uploaded_images g))
    (delete (image_name img_info) (image_categories g))
    (image_artifacts g)
    (remove_file (image_path img_info) (gallery_disk g)).

(** The Clear All button. *)
Definition clear_all (g : Gallery) : Gallery :=
  mkGallery [] ∅ (image_artifacts g)
    (foldl (λ d img_info, remove_file (image_path img_info) d)
       (gallery_disk g) (uploaded_images g)).

(** The images of one category, as the gallery and the counters filter them. *)
Definition images_of (c : category) (g : Gallery) : list ImageInfo :=
  filter (λ img, image_categories g !! image_name img = Some (category_name c))
    (uploaded_images g).

(** User events on the sidebar and what they do to the gallery.  A
    script run that raises keeps what it did before. *)
Inductive gallery_event :=
  | FilesUploaded (uploaded_files : list UploadedFile)
  | CategoriesChosen (chosen : string → category)
  | RemovePressed (img_info : ImageInfo)
  | ClearAllPressed.

Definition gallery_step (ev : gallery_event) (g : Gallery) : Gallery :=
  match ev with
  | FilesUploaded uploaded_files => (upload_files uploaded_files g).2
  | CategoriesChosen chosen => (categorize chosen g).2
  | RemovePressed img_info => remove_image img_info g
  | ClearAllPressed => clear_all g
  end.

Definition gallery_run (events : list gallery_event) (g : Gallery) : Gallery :=
  foldl (λ g ev, gallery_step ev g) g events.

End gallery.

(** The gallery is well formed: image names are distinct, every image
    has a category, every stored category is one of the options and
    belongs to an image. *)
Definition gallery_ok (g : Gallery) : Prop :=
  NoDup (image_name <$> uploaded_images g)
  ∧ (∀ name, name ∈ image_name <$> uploaded_images g
             ↔ is_Some (image_categories g !! name))
  ∧ (∀ name c, image_categories g !! name = Some c → c ∈ category_options).

(** A sample upload: one photo, saved under the working directory. *)
Definition sample_save_path (name : string) : string := "/app/" +:+ name.

Definition sample_photo : UploadedFile := mkUploadedFile "messy kitchen.jpg" "JPEG" 4.

(** Another file with the name of [sample_photo]. *)
Definition sample_photo_retaken : UploadedFile :=
  mkUploadedFile "messy kitchen.jpg" "JPEG, a better shot" 19.

(** Surroundings with a read-only disk and no artifact service: every
    [open] for writing raises. *)
Definition read_only_disk_world : World :=
  mkWorld {["GOOGLE_API_KEY" := "secret"]} (inr tt) (λ _, inr None) (λ _, None)
    (λ _, None)
    (λ _, Some (WriteFailure (Exn OtherException "Read-only file system") None))
    (λ _, inr "a bright modern kitchen")
    (λ _, ([image_chunk], None)) false (λ _ _, inr 0).

(** Surroundings with a full disk: a file can be opened, and the write
    raises after one byte. *)
Definition full_disk_world : World :=
  mkWorld {["GOOGLE_API_KEY" := "secret"]} (inr tt) (λ _, inr None) (λ _, None)
    (λ _, None)
    (λ _, Some (WriteFailure (Exn OtherException "No space left on device") (Some 1%nat)))
    (λ _, inr "a bright modern kitchen")
    (λ _, ([image_chunk], None)) false (λ _ _, inr 0).

(** * Properties *)

(** ** History keys *)

Section history_keys.

Lemma list_ascii_of_string_app (s1 s2 : string) :
  String.list_ascii_of_string (s1 +:+ s2)
  = String.list_ascii_of_string s1 ++ String.list_ascii_of_string s2.
Proof. induction s1 as [|c s1 IH]; simpl; [done | by rewrite IH]. Qed.

Lemma list_ascii_of_string_inj (s1 s2 : string) :
  String.list_ascii_of_string s1 = String.list_ascii_of_string s2 → s1 = s2.
Proof.
  intros H.
  rewrite <- (String.string_of_list_ascii_of_string s1),
          <- (String.string_of_list_ascii_of_string s2).
  by rewrite H.
Qed.

(** Two assets never share a history key. *)
Lemma asset_history_key_inj (a b : string) :
  asset_history_key a = asset_history_key b → a = b.
Proof.
  unfold asset_history_key. intros H.
  apply list_ascii_of_string_inj.
  apply (f_equal String.list_ascii_of_string) in H.
  rewrite !list_ascii_of_string_app in H.
  by apply app_inv_tail in H.
Qed.

(** A history key ends in ["y"], so it is none of the fixed keys of
    the session dictionary: keeping the histories in a map of their
    own loses nothing. *)
Lemma history_key_not_fixed (a k : string) :
  k ∈ fixed_keys → asset_history_key a ≠ k.
Proof.
  intros Hk Heq.
  assert (last (String.list_ascii_of_string k) = Some "y"%char) as Hlast.
  { rewrite <- Heq. unfold asset_history_key.
    rewrite list_ascii_of_string_app. simpl.
    by rewrite !last_app_cons. }
  unfold fixed_keys in Hk.
  repeat (apply elem_of_cons in Hk as [-> | Hk]; [by vm_compute in Hlast|]).
  by apply elem_of_nil in Hk.
Qed.

End history_keys.

(** ** Substring search *)

Section substrings.

Implicit Types (sep s p q : string).

Lemma prefix_spec sep s : String.prefix sep s = true ↔ ∃ q, s = sep +:+ q.
Proof.
  revert s. induction sep as [|a sep IH]; intros s.
  - split; [intros _; by exists s | intros _; by destruct s].
  - destruct s as [|b s]; simpl.
    + split; [done | by intros [q ?]].
    + destruct (ascii_dec a b) as [->|Hne].
      * rewrite IH. split; intros [q Hq]; exists q; [by rewrite Hq | by injection Hq].
      * split; [done|]. intros [q Hq]. injection Hq as ? ?. by destruct Hne.
Qed.

Lemma contains_unfold sep s :
  contains sep s
  = if String.prefix sep s then true
    else match s with "" => false | String _ s' => contains sep s' end.
Proof. by destruct s. Qed.

Lemma split_head_unfold sep s :
  split_head sep s
  = if String.prefix sep s then ""
    else match s with "" => "" | String c s' => String c (split_head sep s') end.
Proof. by destruct s. Qed.

(** [contains] decides occurrence. *)
Lemma contains_spec sep s : contains sep s = true ↔ occurs sep s.
Proof.
  induction s as [|c s IH]; rewrite contains_unfold;
    destruct (String.prefix sep _) eqn:Hpre.
  - split; [intros _|done]. apply prefix_spec in Hpre as [q Hq]. by exists "", q.
  - split; [done|]. intros ([|c p] & q & Hq); [|done].
    assert (String.prefix sep "" = true) as Hp by (apply prefix_spec; by exists q).
    congruence.
  - split; [intros _|done]. apply prefix_spec in Hpre as [q Hq]. by exists "", q.
  - rewrite IH. split.
    + intros (p & q & ->). by exists (String c p), q.
    + intros ([|c' p] & q & Hq).
      * assert (String.prefix sep (String c s) = true) as Hp
          by (apply prefix_spec; by exists q).
        congruence.
      * injection Hq as -> ->. by exists p, q.
Qed.

(** [split_head] returns the portion before the first occurrence. *)
Lemma split_head_spec sep s :
  contains sep s = true → before_first sep s (split_head sep s).
Proof.
  induction s as [|c s IH]; rewrite contains_unfold, split_head_unfold;
    destruct (String.prefix sep _) eqn:Hpre; try done.
  - intros _. apply prefix_spec in Hpre as [q Hq].
    split; [by exists q | simpl; lia].
  - intros _. apply prefix_spec in Hpre as [q Hq].
    split; [by exists q | simpl; lia].
  - intros Hc. destruct (IH Hc) as [[rest Hrest] Hmin]. split.
    + exists rest.
      change (String c s = String c (split_head sep s +:+ sep +:+ rest)).
      by rewrite <- Hrest.
    + intros [|c' p] q Hq.
      * assert (String.prefix sep (String c s) = true) as Hp
          by (apply prefix_spec; by exists q).
        congruence.
      * injection Hq as -> ->. simpl. apply le_n_S. by eapply Hmin.
Qed.

End substrings.

(** ** The version helpers *)

Section store.

Implicit Types (s : Sys) (st : State) (a b f : string) (v : Z).

(** What [get_next_version_number] computes, and that it only reads. *)
Lemma get_next_version_number_run a s :
  get_next_version_number a s = (inr (current_version_of (session s) a + 1), s).
Proof. reflexivity. Qed.

(** The state [update_asset_version] leaves, field by field. *)
Lemma update_asset_version_run a v f s :
  ∃ st',
    update_asset_version a v f s = (inr tt, mkSys st' (disk s))
    ∧ asset_versions st' = Some (<[a := v]> (default ∅ (asset_versions (session s))))
    ∧ asset_filenames st' = Some (<[a := f]> (default ∅ (asset_filenames (session s))))
    ∧ histories st'
      = <[asset_history_key a := history_of (session s) a ++ [Entry v f]]>
          (histories (session s))
    ∧ last_generated_rendering st' = last_generated_rendering (session s)
    ∧ current_asset_name st' = current_asset_name (session s)
    ∧ latest_reference_image st' = latest_reference_image (session s).
Proof.
  destruct s as [[vs fs hs lg ca lr] d].
  unfold update_asset_version, history_of, state_write, mbind, tool_bind; simpl.
  destruct vs as [vs|], fs as [fs|]; simpl;
    destruct (hs !! asset_history_key a) as [h|] eqn:Hh; simpl;
    (eexists; split; [reflexivity|]; simpl; repeat split; try done);
    apply map_eq; intros k;
    (destruct (decide (k = asset_history_key a)) as [->|Hne];
     [ by rewrite lookup_alter_eq, ?lookup_insert_eq, ?Hh
     | by rewrite lookup_alter_ne, ?lookup_insert_ne ]).
Qed.

(** The same, seen through the three read accessors. *)
Lemma update_asset_version_observed a v f s :
  let s' := (update_asset_version a v f s).2 in
  (∀ b, current_version_of (session s') b
        = if decide (b = a) then v else current_version_of (session s) b)
  ∧ (∀ b, current_filename_of (session s') b
        = if decide (b = a) then Some f else current_filename_of (session s) b)
  ∧ (∀ b, history_of (session s') b
        = if decide (b = a) then history_of (session s) a ++ [Entry v f]
          else history_of (session s) b).
Proof.
  destruct (update_asset_version_run a v f s)
    as (st' & -> & Hv & Hf & Hh & _). simpl.
  unfold current_version_of, current_filename_of, history_of.
  rewrite Hv, Hf, Hh. simpl.
  repeat split; intros b; case_decide as Hb; subst.
  - by rewrite lookup_insert_eq.
  - by rewrite lookup_insert_ne.
  - by rewrite lookup_insert_eq.
  - by rewrite lookup_insert_ne.
  - by rewrite lookup_insert_eq.
  - rewrite lookup_insert_ne; [done|].
    intros Heq. by apply asset_history_key_inj in Heq.
Qed.

End store.

(** From here on the commit is used through the lemmas above. *)
Opaque update_asset_version.

(** ** Read-only computations *)

Section readonly.

Context {A B : Type}.

Lemma readonly_run (m : Tool A) s : readonly m → m s = ((m s).1, s).
Proof. intros H. rewrite <- (H s) at 3. by destruct (m s). Qed.

Lemma readonly_ret (x : A) : readonly (mret x).
Proof. done. Qed.

Lemma readonly_raise (e : exn) : readonly (@raise A e).
Proof. done. Qed.

Lemma readonly_lift_result (r : exn + A) : readonly (lift_result r).
Proof. by destruct r. Qed.

Lemma readonly_state_read (f : State → A) : readonly (state_read f).
Proof. done. Qed.

Lemma readonly_disk_read (f : gmap string string → A) : readonly (disk_read f).
Proof. done. Qed.

Lemma readonly_bind (m : Tool A) (k : A → Tool B) :
  readonly m → (∀ x, readonly (k x)) → readonly (m ≫= k).
Proof.
  intros Hm Hk s. unfold mbind, tool_bind.
  rewrite (readonly_run m s Hm).
  destruct (m s).1 as [e|x]; [done | apply Hk].
Qed.

End readonly.

Ltac readonly_step :=
  first
    [ apply readonly_ret | apply readonly_raise | apply readonly_lift_result
    | apply readonly_state_read | apply readonly_disk_read
    | apply readonly_bind; [|intros ?]
    | match goal with
      | |- readonly (match ?x with _ => _ end) => destruct x
      | |- readonly (if ?b then _ else _) => destruct b
      end ].

Ltac readonly_solve := repeat readonly_step.

Section tools.

Implicit Types (w : World) (s : Sys) (a b f : string) (v : Z).

Lemma readonly_get_next_version_number a : readonly (get_next_version_number a).
Proof. done. Qed.

Lemma readonly_load_image_from_file w f : readonly (load_image_from_file w f).
Proof. unfold load_image_from_file. readonly_solve. Qed.

Lemma readonly_load_artifact_or_file w f : readonly (load_artifact_or_file w f).
Proof.
  unfold load_artifact_or_file.
  destruct (load_reference_image w f); [done | apply readonly_load_image_from_file].
Qed.

Lemma readonly_load_source_image w f : readonly (load_source_image w f).
Proof.
  unfold load_source_image.
  destruct (load_artifact w f) as [?|[?|]];
    first [done | apply readonly_load_image_from_file].
Qed.

Lemma readonly_coerce_input {A} (inputs : tool_input A) : readonly (coerce_input inputs).
Proof. destruct inputs; [done | apply readonly_lift_result]. Qed.

Lemma readonly_resolve_asset_name inputs : readonly (resolve_asset_name inputs).
Proof. unfold resolve_asset_name. readonly_solve. Qed.

Lemma readonly_generate_prepare w inputs : readonly (generate_prepare w inputs).
Proof.
  unfold generate_prepare, get_latest_reference_image_filename.
  repeat first
    [ apply readonly_load_artifact_or_file | apply readonly_coerce_input
    | readonly_step ].
Qed.

End tools.

(** ** What one tool call does *)

Section tool_runs.

Implicit Types (w : World) (s : Sys) (a b f : string) (v : Z).

(** [update_asset_version] as a commit between two worlds. *)
Lemma update_asset_version_committed a v f s :
  ∃ s', update_asset_version a v f s = (inr tt, s')
    ∧ disk s' = disk s
    ∧ current_asset_name (session s') = current_asset_name (session s)
    ∧ last_generated_rendering (session s') = last_generated_rendering (session s)
    ∧ latest_reference_image (session s') = latest_reference_image (session s)
    ∧ (∀ b, current_version_of (session s') b
            = if decide (b = a) then v else current_version_of (session s) b)
    ∧ (∀ b, current_filename_of (session s') b
            = if decide (b = a) then Some f else current_filename_of (session s) b)
    ∧ (∀ b, history_of (session s') b
            = if decide (b = a) then history_of (session s) a ++ [Entry v f]
              else history_of (session s) b).
Proof.
  pose proof (update_asset_version_observed a v f s) as Hobs.
  destruct (update_asset_version_run a v f s)
    as (st' & Hrun & _ & _ & _ & Hlg & Hca & Hlr).
  rewrite Hrun in Hobs. simpl in Hobs.
  exists (mkSys st' (disk s)). by repeat split; try apply Hobs.
Qed.

Lemma generate_store_image_spec w inputs f blob s :
  let a := gen_asset_name inputs in
  let next := current_version_of (session s) a + 1 in
  ∃ s', generate_store_image w inputs f blob s
        = (inr (RenderingGenerated f next a), s')
    ∧ committed s s' a (generate_committed_version w f blob next) f
    ∧ disk s' = disk_after_write w f blob (disk s).
Proof.
  intros a next. subst next.
  unfold generate_store_image, generate_committed_version, disk_after_write,
    write_to_disk, current_version_of.
  destruct (save_artifact_safely w f (mkPart (Some blob) None)) as [saved av].
  unfold mbind, tool_bind, disk_write, state_write, get_next_version_number,
    state_read, mret, tool_ret. fold a.
  destruct (open_write_error w f); simpl;
    match goal with
    | |- context [ (if ?c then update_asset_version _ ?v1 _
                    else update_asset_version _ ?v2 _) ?st ] =>
        destruct (update_asset_version_committed a (if c then v1 else v2) f st)
          as (s' & Hrun & Hd & Hca & Hlg & _ & Hv & Hf & Hh);
        exists s'; destruct c; cbv iota in Hrun |- *; rewrite Hrun
    end;
    (split; [done|]; split; [by split | done]).
Qed.

Lemma edit_store_image_spec w a f blob s :
  let next := current_version_of (session s) a + 1 in
  ∃ s', edit_store_image w a f blob s = (inr (RenderingEdited f next a), s')
    ∧ committed s s' a next f
    ∧ disk s' = disk_after_write w f blob (disk s).
Proof.
  intros next. subst next.
  unfold edit_store_image, disk_after_write, write_to_disk, current_version_of.
  destruct (save_artifact_safely w f (mkPart (Some blob) None)) as [saved av].
  unfold mbind, tool_bind, disk_write, state_write, get_next_version_number,
    state_read, mret, tool_ret.
  destruct (open_write_error w f); simpl;
    match goal with
    | |- context [ update_asset_version _ ?v _ ?st ] =>
        destruct (update_asset_version_committed a v f st)
          as (s' & Hrun & Hd & Hca & Hlg & _ & Hv & Hf & Hh);
        rewrite Hrun
    end;
    (eexists; split; [reflexivity|]; split; [by split | done]).
Qed.

(** The generation loop stops at the first image, at the exception
    that ends the stream, or at its end. *)
Lemma generate_stream_run w inputs f chunks stream_end s :
  generate_stream w inputs f chunks stream_end s
  = match generate_scan chunks stream_end with
    | inl e => (inl e, s)
    | inr None => (inr NoRenderingGenerated, s)
    | inr (Some blob) => generate_store_image w inputs f blob s
    end.
Proof.
  induction chunks as [|chunk rest IH]; simpl.
  - by destruct stream_end.
  - by destruct (generate_chunk_image chunk).
Qed.

Lemma edit_stream_run w a f chunks stream_end s :
  edit_stream w a f chunks stream_end s
  = match edit_scan chunks stream_end with
    | inl e => (inl e, s)
    | inr None => (inr NoEditedRendering, s)
    | inr (Some blob) => edit_store_image w a f blob s
    end.
Proof.
  induction chunks as [|chunk rest IH]; simpl.
  - by destruct stream_end.
  - unfold mbind, tool_bind.
    destruct (edit_chunk_image chunk) as [e|[blob|]]; simpl; [done..|apply IH].
Qed.

(** The [try] block of the generation tool, phase by phase. *)
Lemma generate_body_run w inputs s :
  generate_body w inputs s
  = match (generate_prepare w inputs s).1 with
    | inl e => (inl e, s)
    | inr (i, content_parts) =>
        let a := gen_asset_name i in
        let f := create_versioned_filename a (current_version_of (session s) a + 1) "png" in
        match generate_scan (generate_content_stream w content_parts).1
                (generate_content_stream w content_parts).2 with
        | inl e => (inl e, s)
        | inr None => (inr NoRenderingGenerated, s)
        | inr (Some blob) => generate_store_image w i f blob s
        end
    end.
Proof.
  unfold generate_body. unfold mbind at 1, tool_bind at 1.
  rewrite (readonly_run _ s (readonly_generate_prepare w inputs)).
  destruct (generate_prepare w inputs s).1 as [e|[i content_parts]]; [done|].
  simpl. unfold mbind, tool_bind. rewrite get_next_version_number_run.
  destruct (generate_content_stream w content_parts) as [chunks stream_end].
  apply generate_stream_run.
Qed.

(** The validated inputs are what the prepare phase hands on. *)
Lemma generate_prepare_inputs w inputs s i content_parts :
  (generate_prepare w inputs s).1 = inr (i, content_parts) → parsed inputs = inr i.
Proof.
  unfold generate_prepare. unfold mbind at 1, tool_bind at 1.
  destruct (genai_Client w) as [e|[]]; simpl; [done|].
  unfold mbind at 1, tool_bind at 1.
  rewrite (readonly_run _ s (readonly_coerce_input inputs)).
  destruct inputs as [x|[e|x]]; simpl; try done.
  all: repeat (unfold mbind at 1, tool_bind at 1;
               match goal with
               | |- context [ match ?m ?s0 with _ => _ end ] =>
                   destruct (m s0) as [[?|?] ?]; simpl; try done
               end).
  all: intros [= <- _]; done.
Qed.

Lemma resolve_asset_name_run inputs s :
  resolve_asset_name inputs s = (inr (resolved_asset_name inputs (session s)), s).
Proof.
  unfold resolve_asset_name, resolved_asset_name.
  destruct (edit_asset_name inputs) as [[|c n]|]; simpl; try done.
  all: unfold mbind, tool_bind, state_read; simpl;
    by destruct (current_asset_name (session s)) as [[|c' n']|].
Qed.

(** Loading the image to edit never raises and changes nothing. *)
Lemma load_source_image_run w f s :
  ∃ loaded, load_source_image w f s = (inr loaded, s).
Proof.
  unfold load_source_image, load_image_from_file, mbind, tool_bind, disk_read.
  destruct (load_artifact w f) as [e|[p|]]; simpl; eauto;
    destruct (disk s !! f); simpl; eauto;
    destruct (open_read_error w f); simpl; eauto.
Qed.

Lemma load_source_image_unavailable w f s :
  image_unavailable w s f → load_source_image w f s = (inr None, s).
Proof.
  intros [Hart Hfile].
  unfold load_source_image, load_image_from_file, mbind, tool_bind, disk_read.
  destruct Hart as [-> | [e ->]]; simpl;
    (destruct Hfile as [-> | [e' He']]; simpl; [done|]);
    destruct (disk s !! f); simpl; try done; by rewrite He'.
Qed.

(** The edit tool once the image is loaded. *)
Lemma edit_loaded_run w inputs p s :
  edit_loaded w inputs p s
  = let a := resolved_asset_name inputs (session s) in
    let f := create_versioned_filename a (current_version_of (session s) a + 1) "png" in
    let content_parts := edit_content_parts w inputs p (session s) in
    match edit_scan (generate_content_stream w content_parts).1
            (generate_content_stream w content_parts).2 with
    | inl e => (inl e, s)
    | inr None => (inr NoEditedRendering, s)
    | inr (Some blob) => edit_store_image w a f blob s
    end.
Proof.
  unfold edit_loaded, edit_content_parts. unfold mbind at 1, tool_bind at 1.
  match goal with
  | |- context [ match ?m s with _ => _ end ] =>
      match goal with
      | |- context [ option_list ?r ] =>
          match r with
          | context [ session s ] => assert (m s = (inr r, s)) as ->
          end
      end
  end.
  { unfold get_latest_reference_image_filename, mbind, tool_bind, state_read.
    destruct (truthy (edit_reference_image_filename inputs)); [|done].
    destruct (bool_decide _); simpl;
      match goal with |- context [ truthy ?x ] => by destruct (truthy x) end. }
  unfold mbind at 1, tool_bind at 1.
  rewrite resolve_asset_name_run.
  unfold mbind at 1, tool_bind at 1.
  rewrite get_next_version_number_run. simpl.
  destruct (generate_content_stream w _) as [chunks stream_end].
  apply edit_stream_run.
Qed.

(** The [try] block of the edit tool, phase by phase. *)
Lemma edit_body_run w inputs s :
  edit_body w inputs s
  = match genai_Client w with
    | inl e => (inl e, s)
    | inr _ =>
        match parsed inputs with
        | inl e => (inl e, s)
        | inr i =>
            match (load_source_image w (edit_artifact_filename i) s).1 with
            | inl e => (inl e, s)
            | inr None => (inr (ImageNotFound (edit_artifact_filename i)), s)
            | inr (Some p) => edit_loaded w i p s
            end
        end
    end.
Proof.
  unfold edit_body. unfold mbind at 1, tool_bind at 1.
  destruct (genai_Client w) as [e|[]]; simpl; [done|].
  unfold mbind at 1, tool_bind at 1.
  destruct inputs as [i|[e|i]]; simpl; try done.
  all: unfold mbind at 1, tool_bind at 1;
    destruct (load_source_image_run w (edit_artifact_filename i) s) as [[p|] ->];
    done.
Qed.

(** A call of the generation tool with an API key configured either
    returns a failure text and changes nothing, or stores the first
    image of the stream and commits. *)
Lemma generate_cases w inputs s :
  api_key_missing w = false →
  ∃ r s', generate_renovation_rendering w inputs s = (inr r, s')
    ∧ ((is_success r = false ∧ s' = s)
       ∨ (∃ i content_parts blob,
            let a := gen_asset_name i in
            let next := current_version_of (session s) a + 1 in
            let f := create_versioned_filename a next "png" in
            parsed inputs = inr i
            ∧ generate_scan (generate_content_stream w content_parts).1
                (generate_content_stream w content_parts).2 = inr (Some blob)
            ∧ r = RenderingGenerated f next a
            ∧ committed s s' a (generate_committed_version w f blob next) f
            ∧ disk s' = disk_after_write w f blob (disk s))).
Proof.
  intros Hkey. unfold generate_renovation_rendering, try_except.
  rewrite Hkey, generate_body_run.
  destruct (generate_prepare w inputs s).1 as [e|[i content_parts]] eqn:Hprep.
  { exists (GenerateError e), s. by split; [|left]. }
  apply generate_prepare_inputs in Hprep. simpl.
  destruct (generate_scan _ _) as [e|[blob|]] eqn:Hscan.
  - exists (GenerateError e), s. by split; [|left].
  - destruct (generate_store_image_spec w i
                (create_versioned_filename (gen_asset_name i)
                   (current_version_of (session s) (gen_asset_name i) + 1) "png")
                blob s) as (s' & -> & Hc & Hd).
    eexists _, s'. split; [done|]. right. by exists i, content_parts, blob.
  - exists NoRenderingGenerated, s. by split; [|left].
Qed.

Lemma edit_cases w inputs s :
  api_key_missing w = false →
  ∃ r s', edit_renovation_rendering w inputs s = (inr r, s')
    ∧ ((is_success r = false ∧ s' = s)
       ∨ (∃ i content_parts blob,
            let a := resolved_asset_name i (session s) in
            let next := current_version_of (session s) a + 1 in
            let f := create_versioned_filename a next "png" in
            parsed inputs = inr i
            ∧ edit_scan (generate_content_stream w content_parts).1
                (generate_content_stream w content_parts).2 = inr (Some blob)
            ∧ r = RenderingEdited f next a
            ∧ committed s s' a next f
            ∧ disk s' = disk_after_write w f blob (disk s))).
Proof.
  intros Hkey. unfold edit_renovation_rendering, try_except.
  rewrite Hkey, edit_body_run.
  destruct (genai_Client w) as [e|[]].
  { exists (EditError e), s. by split; [|left]. }
  destruct (parsed inputs) as [e|i] eqn:Hin.
  { exists (EditError e), s. by split; [|left]. }
  destruct (load_source_image_run w (edit_artifact_filename i) s) as [[p|] ->]; simpl.
  2: { exists (ImageNotFound (edit_artifact_filename i)), s. by split; [|left]. }
  rewrite edit_loaded_run. simpl.
  destruct (edit_scan _ _) as [e|[blob|]] eqn:Hscan.
  - exists (EditError e), s. by split; [|left].
  - destruct (edit_store_image_spec w (resolved_asset_name i (session s))
                (create_versioned_filename (resolved_asset_name i (session s))
                   (current_version_of (session s)
                      (resolved_asset_name i (session s)) + 1) "png")
                blob s) as (s' & -> & Hc & Hd).
    eexists _, s'. split; [done|]. right.
    by exists i, (edit_content_parts w i p (session s)), blob.
  - exists NoEditedRendering, s. by split; [|left].
Qed.

(** An exception leaves the [try] block only with the world untouched. *)
Lemma generate_body_raises w inputs s e s' :
  generate_body w inputs s = (inl e, s') → s' = s.
Proof.
  rewrite generate_body_run.
  destruct (generate_prepare w inputs s).1 as [e0|[i content_parts]];
    [by intros [= _ <-]|].
  simpl. destruct (generate_scan _ _) as [e0|[blob|]]; try by intros [= _ <-].
  match goal with
  | |- generate_store_image ?w1 ?i1 ?f1 ?b1 ?s1 = _ → _ =>
      destruct (generate_store_image_spec w1 i1 f1 b1 s1) as (s2 & -> & _)
  end.
  done.
Qed.

Lemma edit_body_raises w inputs s e s' :
  edit_body w inputs s = (inl e, s') → s' = s.
Proof.
  rewrite edit_body_run.
  destruct (genai_Client w) as [e0|[]]; [by intros [= _ <-]|].
  destruct (parsed inputs) as [e0|i]; [by intros [= _ <-]|].
  destruct (load_source_image_run w (edit_artifact_filename i) s) as [[p|] ->];
    simpl; [|done].
  rewrite edit_loaded_run. simpl.
  destruct (edit_scan _ _) as [e0|[blob|]]; try by intros [= _ <-].
  match goal with
  | |- edit_store_image ?w1 ?a1 ?f1 ?b1 ?s1 = _ → _ =>
      destruct (edit_store_image_spec w1 a1 f1 b1 s1) as (s2 & -> & _)
  end.
  done.
Qed.

(** Without an API key both tools raise before their [try]. *)
Lemma generate_without_key w inputs s :
  api_key_missing w = true →
  generate_renovation_rendering w inputs s = (inl api_key_error, s).
Proof. intros H. unfold generate_renovation_rendering. by rewrite H. Qed.

Lemma edit_without_key w inputs s :
  api_key_missing w = true →
  edit_renovation_rendering w inputs s = (inl api_key_error, s).
Proof. intros H. unfold edit_renovation_rendering. by rewrite H. Qed.



End tool_runs.

(** ** Sessions *)

Section sessions.

Implicit Types (w : World) (s : Sys) (a b f : string) (v : Z) (c : call).

(** One call either fails and changes nothing, or reports the next
    version of an asset and commits some version for it: the reported
    one unless a generation takes the artifact service's. *)
Lemma run_call_cases c s :
  ∃ out s', run_call c s = (out, s')
    ∧ ((succeeded out = false ∧ s' = s)
       ∨ (∃ a v vc f,
            (out = inr (RenderingGenerated f v a) ∨ out = inr (RenderingEdited f v a))
            ∧ v = current_version_of (session s) a + 1
            ∧ committed s s' a vc f
            ∧ (commits_local_version c → vc = v))).
Proof.
  destruct c as [w inputs|w inputs]; simpl;
    destruct (api_key_missing w) eqn:Hkey.
  - rewrite generate_without_key by done. eexists _, _. split; [done|]. by left.
  - destruct (generate_cases w inputs s Hkey)
      as (r & s' & -> & [[Hr ->]|(i & cp & blob & _ & _ & -> & Hc & _)]).
    + eexists _, _. split; [done|]. by left.
    + eexists _, _. split; [done|]. right.
      eexists _, _, _, _. split; [by left|]. split; [done|]. split; [done|].
      intros Hlocal. unfold generate_committed_version. by rewrite Hlocal.
  - rewrite edit_without_key by done. eexists _, _. split; [done|]. by left.
  - destruct (edit_cases w inputs s Hkey)
      as (r & s' & -> & [[Hr ->]|(i & cp & blob & _ & _ & -> & Hc & _)]).
    + eexists _, _. split; [done|]. by left.
    + eexists _, _. split; [done|]. right.
      eexists _, _, _, _. split; [by right|]. split; [done|]. by split.
Qed.

Lemma seqZ_snoc (n : Z) : 0 ≤ n → seqZ 1 (n + 1) = seqZ 1 n ++ [n + 1].
Proof.
  intros Hn. rewrite seqZ_app by lia. f_equal.
  rewrite seqZ_cons by lia. rewrite seqZ_nil by lia. f_equal. lia.
Qed.

Lemma contiguous_empty_state : contiguous empty_state.
Proof. intros a. split; [done|]. by vm_compute. Qed.

Lemma unknown_without_history_empty_state : unknown_without_history empty_state.
Proof. by intros a _. Qed.

(** A call that commits its own version number keeps the histories
    contiguous and moves exactly the counter it reports. *)
Lemma run_call_contiguous c s out s' :
  commits_local_version c →
  run_call c s = (out, s') →
  contiguous (session s) →
  contiguous (session s')
  ∧ ∀ a, current_version_of (session s') a
         = current_version_of (session s) a
           + (if commits_to a out then 1 else 0).
Proof.
  intros Hlocal Hrun Hinv.
  destruct (run_call_cases c s)
    as (out' & s'' & Hrun' & [[Hfail ->]|(a & v & vc & f & Hout & -> & Hc & Hvc)]).
  - rewrite Hrun in Hrun'. injection Hrun' as <- <-. split; [done|].
    intros a. destruct out as [e|[]]; simpl in *; try done; lia.
  - rewrite Hrun in Hrun'. injection Hrun' as <- <-.
    rewrite (Hvc Hlocal) in Hc. destruct Hc as [Hv _ Hh _ _].
    assert (∀ b, commits_to b out = bool_decide (a = b)) as Hcommits.
    { intros b. by destruct Hout as [-> | ->]. }
    split.
    + intros b. unfold history_versions. rewrite Hv, Hh.
      destruct (Hinv b) as [Hpos Hb]. destruct (Hinv a) as [Hposa Ha].
      case_decide as Hba; [subst b|done].
      split; [lia|].
      rewrite fmap_app. unfold history_versions in Ha. rewrite Ha. simpl.
      by rewrite seqZ_snoc.
    + intros b. rewrite Hv, Hcommits.
      case_decide as Hba; [subst b; by rewrite bool_decide_true|].
      rewrite bool_decide_false by done. lia.
Qed.

Lemma run_calls_contiguous cs s outs s' :
  Forall commits_local_version cs →
  run_calls cs s = (outs, s') →
  contiguous (session s) →
  contiguous (session s')
  ∧ ∀ a, current_version_of (session s') a
         = current_version_of (session s) a + Z.of_nat (commit_count a outs).
Proof.
  intros Hlocal. revert s outs s'.
  induction Hlocal as [|c cs Hc _ IH]; intros s outs s' Hrun Hinv; simpl in Hrun.
  - injection Hrun as <- <-. split; [done|]. intros a.
    unfold commit_count. rewrite filter_nil. simpl. lia.
  - destruct (run_call c s) as [out s1] eqn:Hcall.
    destruct (run_calls cs s1) as [outs1 s2] eqn:Hrest.
    injection Hrun as <- <-.
    destruct (run_call_contiguous c s out s1 Hc Hcall Hinv) as [Hinv1 Hstep].
    destruct (IH s1 outs1 s2 Hrest Hinv1) as [Hinv2 Hcount].
    split; [done|]. intros a. rewrite Hcount, Hstep.
    unfold commit_count.
    destruct (commits_to a out) eqn:Hout.
    + rewrite filter_cons_True by done. simpl length. lia.
    + rewrite filter_cons_False by (by rewrite Hout). lia.
Qed.

(** Whatever the calls, an asset without history keeps version 0. *)
Lemma run_call_unknown_without_history c s out s' :
  run_call c s = (out, s') →
  unknown_without_history (session s) →
  unknown_without_history (session s').
Proof.
  intros Hrun Hinv.
  destruct (run_call_cases c s)
    as (out' & s'' & Hrun' & [[Hfail ->]|(a & v & vc & f & Hout & -> & Hc & Hvc)]);
    rewrite Hrun in Hrun'; injection Hrun' as <- <-; [done|].
  destruct Hc as [Hv _ Hh _ _].
  intros b. rewrite Hv, Hh. case_decide; [|apply Hinv].
  intros Hnil. by apply app_nil in Hnil as [_ ?].
Qed.

Lemma run_calls_unknown_without_history cs s outs s' :
  run_calls cs s = (outs, s') →
  unknown_without_history (session s) →
  unknown_without_history (session s').
Proof.
  revert s outs s'. induction cs as [|c cs IH]; intros s outs s' Hrun Hinv;
    simpl in Hrun.
  - by injection Hrun as <- <-.
  - destruct (run_call c s) as [out s1] eqn:Hcall.
    destruct (run_calls cs s1) as [outs1 s2] eqn:Hrest.
    injection Hrun as <- <-.
    eapply IH; [done|]. by eapply run_call_unknown_without_history.
Qed.

End sessions.

(** * The claims *)

Section asset_version_store.

Implicit Types (s : Sys) (a f : string) (v : Z).

(** C1, as stated, fails: on a fresh session a commit of version 5,
    which is not the current version plus one, is carried out. *)
Lemma out_of_sequence_commit_accepted :
  5 ≠ current_version_of (session fresh_session) "kitchen_renovation" + 1
  ∧ ¬ commit_rejected fresh_session "kitchen_renovation" 5 "kitchen_renovation_v5.png".
Proof.
  split; [by vm_compute|].
  intros (H & _). vm_compute in H. discriminate.
Qed.

(** C1, amended: [update_asset_version] checks nothing.  For every
    state, asset, version and file name it returns normally, appends
    the entry to the asset's history and makes the version and file
    name the current ones, in sequence or not. *)
Theorem update_asset_version_unconditional s a v f :
  let r := update_asset_version a v f s in
  r.1 = inr tt
  ∧ history_of (session r.2) a = history_of (session s) a ++ [Entry v f]
  ∧ current_version_of (session r.2) a = v
  ∧ current_filename_of (session r.2) a = Some f.
Proof.
  destruct (update_asset_version_committed a v f s)
    as (s' & Hrun & _ & _ & _ & _ & Hv & Hf & Hh).
  simpl. rewrite Hrun. simpl.
  rewrite Hv, Hf, Hh. by rewrite !decide_True.
Qed.

(** C3: right after [update_asset_version a v f] the version map holds
    [v] for [a], the file name map holds [f], [(v, f)] is the last
    history entry, and [get_next_version_number a] returns [v + 1]. *)
Theorem latest_and_next_after_commit s a v f :
  let s' := (update_asset_version a v f s).2 in
  (∃ m, asset_versions (session s') = Some m ∧ m !! a = Some v)
  ∧ (∃ m, asset_filenames (session s') = Some m ∧ m !! a = Some f)
  ∧ last (history_of (session s') a) = Some (Entry v f)
  ∧ get_next_version_number a s' = (inr (v + 1), s').
Proof.
  pose proof (update_asset_version_observed a v f s) as (Hv & _ & Hh).
  destruct (update_asset_version_run a v f s)
    as (st' & Hrun & Hvs & Hfs & _).
  rewrite Hrun in Hv, Hh |- *. simpl in *.
  split; [|split; [|split]].
  - eexists. split; [done|]. by rewrite lookup_insert_eq.
  - eexists. split; [done|]. by rewrite lookup_insert_eq.
  - rewrite Hh, decide_True by done. apply last_snoc.
  - rewrite get_next_version_number_run. simpl.
    by rewrite Hv, decide_True.
Qed.

End asset_version_store.

Section version_sequences.

Implicit Types (s : Sys) (a f : string) (v : Z).

(** C2, as stated, fails: one successful generation whose artifact
    save answers version 7 leaves the history [[7]], not [[1]]. *)
Lemma artifact_version_breaks_contiguity :
  let r := run_calls session_with_artifact_version fresh_session in
  r.1 = [inr (RenderingGenerated "kitchen_renovation_v1.png" 1 "kitchen_renovation")]
  ∧ history_versions (session r.2) "kitchen_renovation" = [7]
  ∧ history_versions (session r.2) "kitchen_renovation"
    ≠ seqZ 1 (Z.of_nat (length session_with_artifact_version)).
Proof. by vm_compute. Qed.

(** C2, amended: in a session that starts fresh and in which every
    generation commits its own version number (the artifact service is
    missing, fails or answers version 0; edits always do), the
    versions in the history of each asset are exactly [1 .. n], [n]
    being the number of successful calls for that asset. *)
Theorem history_versions_contiguous cs d a :
  Forall commits_local_version cs →
  let r := run_calls cs (mkSys empty_state d) in
  history_versions (session r.2) a = seqZ 1 (Z.of_nat (commit_count a r.1)).
Proof.
  intros Hlocal r.
  destruct (run_calls_contiguous cs (mkSys empty_state d) r.1 r.2 Hlocal)
    as [Hinv Hcount]; [apply surjective_pairing | apply contiguous_empty_state |].
  destruct (Hinv a) as [_ ->]. by rewrite Hcount.
Qed.

Lemma session_generate_then_edit_local :
  Forall commits_local_version session_generate_then_edit.
Proof. repeat constructor. Qed.

Lemma history_versions_contiguous_witness :
  Forall commits_local_version session_generate_then_edit
  ∧ history_versions
      (session (run_calls session_generate_then_edit fresh_session).2)
      "kitchen_renovation"
    = seqZ 1 (Z.of_nat (commit_count "kitchen_renovation"
                          (run_calls session_generate_then_edit fresh_session).1)).
Proof.
  split; [apply session_generate_then_edit_local|].
  apply (history_versions_contiguous session_generate_then_edit ∅
           "kitchen_renovation" session_generate_then_edit_local).
Defined.

(** The sample session does commit twice: its history is [[1; 2]]. *)
Example session_generate_then_edit_history :
  history_versions
    (session (run_calls session_generate_then_edit fresh_session).2)
    "kitchen_renovation" = [1; 2]
  ∧ commit_count "kitchen_renovation"
      (run_calls session_generate_then_edit fresh_session).1 = 2%nat.
Proof. by vm_compute. Qed.

(** C6: [get_next_version_number] returns the stored current version
    plus one and leaves the state as it was; for an asset without
    history, in any state a fresh session can reach, that is 1. *)
Theorem next_version_is_a_read a s :
  get_next_version_number a s = (inr (current_version_of (session s) a + 1), s)
  ∧ (∀ cs d outs,
       run_calls cs (mkSys empty_state d) = (outs, s) →
       history_of (session s) a = [] →
       get_next_version_number a s = (inr 1, s)).
Proof.
  split; [apply get_next_version_number_run|].
  intros cs d outs Hrun Hnil. rewrite get_next_version_number_run.
  by rewrite (run_calls_unknown_without_history cs _ outs s Hrun
                unknown_without_history_empty_state a Hnil).
Qed.

Lemma next_version_is_a_read_witness :
  let r := run_calls session_generate_then_edit fresh_session in
  history_of (session r.2) "bathroom_spa" = []
  ∧ get_next_version_number "bathroom_spa" r.2 = (inr 1, r.2)
  ∧ get_next_version_number "kitchen_renovation" r.2 = (inr 3, r.2).
Proof.
  intros r.
  split; [by vm_compute|]. split.
  - apply (proj2 (next_version_is_a_read "bathroom_spa" r.2)
             session_generate_then_edit ∅ r.1); by vm_compute.
  - rewrite (proj1 (next_version_is_a_read "kitchen_renovation" r.2)).
    by vm_compute.
Defined.

End version_sequences.

Section image_tools.

Implicit Types (w : World) (s : Sys) (a f : string) (v : Z).

Lemma generate_scan_image chunks stream_end blob :
  generate_scan chunks stream_end = inr (Some blob) → truthy (data blob) = true.
Proof.
  induction chunks as [|chunk rest IH]; simpl.
  - by destruct stream_end.
  - unfold generate_chunk_image.
    destruct (candidates chunk) as [[|cand ?]|]; try done.
    destruct (content cand) as [c|]; try done.
    destruct (parts c) as [[|part ?]|]; try done.
    destruct (inline_data part) as [b|]; try done.
    destruct (truthy (data b)) eqn:Hb; try done.
    by intros [= <-].
Qed.

Lemma edit_scan_image chunks stream_end blob :
  edit_scan chunks stream_end = inr (Some blob) → truthy (data blob) = true.
Proof.
  induction chunks as [|chunk rest IH]; simpl.
  - by destruct stream_end.
  - unfold edit_chunk_image.
    destruct (candidates chunk) as [[|cand ?]|]; try done.
    destruct (content cand) as [c|]; try done.
    destruct (parts c) as [[|part ?]|]; try done.
    destruct (inline_data part) as [b|]; try done.
    destruct (truthy (data b)) eqn:Hb; try done.
    by intros [= <-].
Qed.

(** A call that asks the image model ends as its loop ends: with the
    error text, with the no-image text, or with the first image stored
    and committed.  Until an image is found nothing is changed. *)
Lemma run_call_stream c s a content_parts :
  stream_request c s = Some (a, content_parts) →
  let v := current_version_of (session s) a + 1 in
  let f := create_versioned_filename a v "png" in
  match stream_result c content_parts with
  | inl e => run_call c s = (inr (error_reply c e), s)
  | inr None => run_call c s = (inr (no_image_reply c), s)
  | inr (Some blob) =>
      ∃ s', run_call c s = (inr (success_reply c f v a), s')
        ∧ committed s s' a (version_committed_by c f blob v) f
        ∧ disk s' = disk_after_write (call_world c) f blob (disk s)
        ∧ truthy (data blob) = true
  end.
Proof.
  destruct c as [w inputs|w inputs]; unfold stream_request, stream_result; simpl;
    destruct (api_key_missing w) eqn:Hkey; try done.
  - unfold generate_renovation_rendering, try_except.
    rewrite Hkey, generate_body_run.
    destruct (generate_prepare w inputs s).1 as [e|[i parts0]]; [done|].
    intros [= <- <-]. simpl.
    destruct (generate_scan _ _) as [e|[blob|]] eqn:Hscan; [done| |done].
    destruct (generate_store_image_spec w i
                (create_versioned_filename (gen_asset_name i)
                   (current_version_of (session s) (gen_asset_name i) + 1) "png")
                blob s) as (s' & -> & Hc & Hd).
    exists s'. split; [done|]. split; [done|]. split; [done|].
    by eapply generate_scan_image.
  - unfold edit_renovation_rendering, try_except.
    rewrite Hkey, edit_body_run.
    destruct (genai_Client w) as [e|[]]; [done|].
    destruct (parsed inputs) as [e|i]; [done|].
    destruct (load_source_image_run w (edit_artifact_filename i) s) as [[p|] ->];
      simpl; [|done].
    intros [= <- <-]. rewrite edit_loaded_run. simpl.
    destruct (edit_scan _ _) as [e|[blob|]] eqn:Hscan; [done| |done].
    destruct (edit_store_image_spec w (resolved_asset_name i (session s))
                (create_versioned_filename (resolved_asset_name i (session s))
                   (current_version_of (session s)
                      (resolved_asset_name i (session s)) + 1) "png")
                blob s) as (s' & -> & Hc & Hd).
    exists s'. split; [done|]. split; [done|]. split; [done|].
    by eapply edit_scan_image.
Qed.

(** A call that does not get as far as the image model fails and
    changes nothing. *)
Lemma run_call_no_request c s :
  stream_request c s = None →
  succeeded (run_call c s).1 = false ∧ (run_call c s).2 = s.
Proof.
  destruct c as [w inputs|w inputs]; unfold stream_request; simpl;
    destruct (api_key_missing w) eqn:Hkey.
  - intros _. by rewrite generate_without_key.
  - unfold generate_renovation_rendering, try_except.
    rewrite Hkey, generate_body_run.
    by destruct (generate_prepare w inputs s).1 as [e|[i parts0]].
  - intros _. by rewrite edit_without_key.
  - unfold edit_renovation_rendering, try_except.
    rewrite Hkey, edit_body_run.
    destruct (genai_Client w) as [e|[]]; [done|].
    destruct (parsed inputs) as [e|i]; [done|].
    by destruct (load_source_image_run w (edit_artifact_filename i) s) as [[p|] ->].
Qed.


(** With an API key a call returns a text; without, it raises. *)
Lemma run_call_returns c s :
  (api_key_missing (call_world c) = false → ∃ r, (run_call c s).1 = inr r)
  ∧ (api_key_missing (call_world c) = true → run_call c s = (inl api_key_error, s)).
Proof.
  destruct c as [w inputs|w inputs]; simpl; split; intros Hkey.
  - destruct (generate_cases w inputs s Hkey) as (r & s' & -> & _). by exists r.
  - by apply generate_without_key.
  - destruct (edit_cases w inputs s Hkey) as (r & s' & -> & _). by exists r.
  - by apply edit_without_key.
Qed.


(** C4, as stated, fails: without an API key an edit of an image that
    can be loaded from nowhere returns no message, it raises. *)
Lemma edit_missing_image_raises_without_api_key :
  image_unavailable world_without_key fresh_session
    (edit_artifact_filename kitchen_edit)
  ∧ ¬ ∃ r, (edit_renovation_rendering world_without_key
              (AsObject kitchen_edit) fresh_session).1 = inr r.
Proof.
  split.
  - split; by left.
  - by intros [r Hr].
Qed.

(** C4, amended: called with a file name that loads neither as an
    artifact nor from the disk, the edit tool leaves the session state
    and the disk exactly as they were.  With [GEMINI_API_KEY] or
    [GOOGLE_API_KEY] in the environment it returns an error text: the
    could-not-find message, or the error message when the model client
    cannot even be created.  With neither it raises [ValueError]. *)
Theorem edit_missing_image_changes_nothing w inputs i s :
  parsed inputs = inr i →
  image_unavailable w s (edit_artifact_filename i) →
  (api_key_missing w = false →
     ∃ r, edit_renovation_rendering w inputs s = (inr r, s)
          ∧ is_success r = false
          ∧ (r = ImageNotFound (edit_artifact_filename i)
             ∨ ∃ e, genai_Client w = inl e ∧ r = EditError e))
  ∧ (api_key_missing w = true →
     edit_renovation_rendering w inputs s = (inl api_key_error, s)).
Proof.
  intros Hin Hmiss. split; intros Hkey; [|by apply edit_without_key].
  unfold edit_renovation_rendering, try_except.
  rewrite Hkey, edit_body_run, Hin.
  destruct (genai_Client w) as [e|[]].
  - exists (EditError e). split; [done|]. split; [done|]. right. by exists e.
  - rewrite (load_source_image_unavailable w _ s Hmiss). simpl.
    eexists. split; [done|]. split; [done|]. by left.
Qed.

Lemma edit_missing_image_changes_nothing_witness :
  let w := sample_world [image_chunk] None false (inr 0) in
  (∃ r, edit_renovation_rendering w (AsObject kitchen_edit) fresh_session
        = (inr r, fresh_session)
        ∧ is_success r = false
        ∧ (r = ImageNotFound "kitchen_renovation_v1.png"
           ∨ ∃ e, genai_Client w = inl e ∧ r = EditError e))
  ∧ edit_renovation_rendering world_without_key (AsObject kitchen_edit) fresh_session
    = (inl api_key_error, fresh_session).
Proof.
  intros w. split.
  - apply (edit_missing_image_changes_nothing w (AsObject kitchen_edit) kitchen_edit
             fresh_session).
    + reflexivity.
    + split; left; reflexivity.
    + reflexivity.
  - apply (edit_missing_image_changes_nothing world_without_key
             (AsObject kitchen_edit) kitchen_edit fresh_session).
    + reflexivity.
    + split; left; reflexivity.
    + reflexivity.
Defined.

(** C5, as stated, fails: without an API key a generation fails and
    commits nothing, but the failure is raised, not returned as a text. *)
Lemma failed_generation_raises_without_api_key :
  let r := run_call (CallGenerate world_without_key (AsObject kitchen_request))
             fresh_session in
  succeeded r.1 = false
  ∧ r.2 = fresh_session
  ∧ ¬ ∃ reply, r.1 = inr reply.
Proof.
  split; [done|]. split; [done|]. by intros [reply Hreply].
Qed.

(** C5, amended: a generation or edit call that does not end in success
    leaves the world as it was, so the version computed beforehand is
    not committed.  The call fails when it does not get as far as the
    image model, and when the model's answer to the request it sent
    holds no image: the stream ends without one (the no-image text), or
    an exception ends the loop before one (the error text).  With
    [GEMINI_API_KEY] or [GOOGLE_API_KEY] in the environment the outcome
    is a returned text, and an exception raised anywhere inside the
    [try] block becomes the error text with nothing changed; with
    neither the call raises [ValueError].  Exceptions are instances of
    Python's [Exception]. *)
Theorem failed_call_commits_nothing c s :
  let r := run_call c s in
  (succeeded r.1 = false → r.2 = s)
  ∧ (stream_request c s = None → succeeded r.1 = false)
  ∧ (∀ a content_parts,
       stream_request c s = Some (a, content_parts) →
       match stream_result c content_parts with
       | inl e => r = (inr (error_reply c e), s)
       | inr None => r = (inr (no_image_reply c), s)
       | inr (Some _) => succeeded r.1 = true
       end)
  ∧ (api_key_missing (call_world c) = false →
       (∃ reply, r.1 = inr reply)
       ∧ ∀ e s', call_body c s = (inl e, s') → r = (inr (error_reply c e), s))
  ∧ (api_key_missing (call_world c) = true → r = (inl api_key_error, s)).
Proof.
  intros r. subst r. split; [|split; [|split; [|split]]].
  - destruct (stream_request c s) as [[a content_parts]|] eqn:Hreq.
    + pose proof (run_call_stream c s a content_parts Hreq) as Hrun. simpl in Hrun.
      destruct (stream_result c content_parts) as [e|[blob|]];
        [by rewrite Hrun | | by rewrite Hrun].
      destruct Hrun as (s' & -> & _). by destruct c.
    + intros _. by apply run_call_no_request.
  - intros Hreq. by apply run_call_no_request.
  - intros a content_parts Hreq.
    pose proof (run_call_stream c s a content_parts Hreq) as Hrun. simpl in Hrun.
    destruct (stream_result c content_parts) as [e|[blob|]]; [done| |done].
    destruct Hrun as (s' & -> & _). by destruct c.
  - intros Hkey. split; [by apply run_call_returns|].
    intros e s' Hraise. destruct c as [w inputs|w inputs]; simpl in *.
    + pose proof (generate_body_raises _ _ _ _ _ Hraise) as ->.
      unfold generate_renovation_rendering, try_except. by rewrite Hkey, Hraise.
    + pose proof (edit_body_raises _ _ _ _ _ Hraise) as ->.
      unfold edit_renovation_rendering, try_except. by rewrite Hkey, Hraise.
  - intros Hkey. by apply run_call_returns.
Qed.

Lemma failed_call_commits_nothing_witness :
  let c1 := CallGenerate overloaded_world (AsObject kitchen_request) in
  let c2 := CallEdit (sample_world [text_chunk] None false (inr 0))
              (AsObject kitchen_edit) in
  ((∃ a content_parts,
      stream_request c1 fresh_session = Some (a, content_parts)
      ∧ stream_result c1 content_parts = inl (Exn OtherException "503 UNAVAILABLE"))
   ∧ run_call c1 fresh_session
     = (inr (GenerateError (Exn OtherException "503 UNAVAILABLE")), fresh_session)
   ∧ api_key_missing overloaded_world = false
   ∧ (∃ reply, (run_call c1 fresh_session).1 = inr reply))
  ∧ ((∃ a content_parts,
        stream_request c2 session_after_generate = Some (a, content_parts)
        ∧ stream_result c2 content_parts = inr None)
     ∧ run_call c2 session_after_generate
       = (inr NoEditedRendering, session_after_generate)).
Proof.
  intros c1 c2. split.
  - destruct (failed_call_commits_nothing c1 fresh_session)
      as (_ & _ & Hstream & Htext & _).
    split.
    + exists "kitchen_renovation", [Part_from_text "a bright modern kitchen"].
      split; reflexivity.
    + split.
      * apply (Hstream "kitchen_renovation"
                 [Part_from_text "a bright modern kitchen"]).
        reflexivity.
      * split; [reflexivity|]. apply Htext. reflexivity.
  - destruct (failed_call_commits_nothing c2 session_after_generate)
      as (_ & _ & Hstream & _).
    split.
    + exists "kitchen_renovation",
        [mkPart (Some (mkBlob (Some "image/png") (Some "PNG"))) None;
         Part_from_text "make the cabinets cream"].
      split; reflexivity.
    + apply (Hstream "kitchen_renovation"
               [mkPart (Some (mkBlob (Some "image/png") (Some "PNG"))) None;
                Part_from_text "make the cabinets cream"]).
      reflexivity.
Defined.




(** C8, as stated, fails: with no API key in the environment both
    tools raise [ValueError] instead of returning a text. *)
Lemma tools_raise_without_api_key :
  (generate_renovation_rendering world_without_key
     (AsObject kitchen_request) fresh_session).1 = inl api_key_error
  ∧ (edit_renovation_rendering world_without_key
       (AsObject kitchen_edit) fresh_session).1 = inl api_key_error.
Proof. by vm_compute. Qed.

(** C8, amended: with [GEMINI_API_KEY] or [GOOGLE_API_KEY] in the
    environment every call of either tool returns a text, whatever
    the collaborators raise; with neither, the guard in front of the
    [try] block raises [ValueError] and the state is untouched. *)
Theorem tools_return_text_with_api_key w s :
  (api_key_missing w = false →
     (∀ inputs, ∃ r s', generate_renovation_rendering w inputs s = (inr r, s'))
     ∧ (∀ inputs, ∃ r s', edit_renovation_rendering w inputs s = (inr r, s')))
  ∧ (api_key_missing w = true →
     (∀ inputs, generate_renovation_rendering w inputs s = (inl api_key_error, s))
     ∧ (∀ inputs, edit_renovation_rendering w inputs s = (inl api_key_error, s))).
Proof.
  split; intros Hkey; split; intros inputs.
  - destruct (generate_cases w inputs s Hkey) as (r & s' & Hrun & _). eauto.
  - destruct (edit_cases w inputs s Hkey) as (r & s' & Hrun & _). eauto.
  - by apply generate_without_key.
  - by apply edit_without_key.
Qed.

Lemma tools_return_text_with_api_key_witness :
  api_key_missing overloaded_world = false
  ∧ (∃ r s', generate_renovation_rendering overloaded_world
               (AsDict (inl (Exn ValueError "1 validation error"))) fresh_session
             = (inr r, s'))
  ∧ api_key_missing world_without_key = true
  ∧ edit_renovation_rendering world_without_key (AsObject kitchen_edit) fresh_session
    = (inl api_key_error, fresh_session).
Proof.
  split; [reflexivity|]. split.
  - apply (proj1 (tools_return_text_with_api_key overloaded_world fresh_session)
             eq_refl).
  - split; [reflexivity|].
    apply (proj2 (tools_return_text_with_api_key world_without_key fresh_session)
             eq_refl).
Defined.

(** C10: when the edit inputs give no asset name ([None], or an empty
    one), the name is the state's current asset name if that is set
    (present and non-empty); otherwise the portion of the artifact file
    name before its first ["_v"] if it contains one; otherwise
    ["renovation_rendering"].  A successful edit reports that name [a],
    the next version [v] of it, and the file name
    [a ++ "_v" ++ v ++ ".png"]. *)
Theorem edit_asset_name_resolution i s :
  (¬ name_is_set (edit_asset_name i) →
   ∃ a, resolve_asset_name i s = (inr a, s)
     ∧ (name_is_set (current_asset_name (session s))
        → current_asset_name (session s) = Some a)
     ∧ (¬ name_is_set (current_asset_name (session s))
        → occurs "_v" (edit_artifact_filename i)
        → before_first "_v" (edit_artifact_filename i) a)
     ∧ (¬ name_is_set (current_asset_name (session s))
        → ¬ occurs "_v" (edit_artifact_filename i)
        → a = "renovation_rendering"))
  ∧ (∀ w inputs f v a s',
       parsed inputs = inr i →
       edit_renovation_rendering w inputs s = (inr (RenderingEdited f v a), s') →
       resolve_asset_name i s = (inr a, s)
       ∧ v = current_version_of (session s) a + 1
       ∧ f = a +:+ "_v" +:+ pretty v +:+ ".png").
Proof.
  split.
  - intros Hnone. rewrite resolve_asset_name_run. eexists. split; [done|].
    unfold resolved_asset_name.
    destruct (edit_asset_name i) as [[|c0 n0]|];
      [| by destruct Hnone; exists (String c0 n0) |].
    all: destruct (current_asset_name (session s)) as [[|c n]|] eqn:Hcur;
      [| split; [done|]; split; intros Hunset; destruct Hunset;
         by exists (String c n) |].
    all: (split; [by intros (n & [=] & ?)|]);
      destruct (contains "_v" (edit_artifact_filename i)) eqn:Hc; split;
      [ intros _ _; by apply split_head_spec
      | intros _ Hno; destruct Hno; by apply contains_spec
      | intros _ Hocc; apply contains_spec in Hocc; congruence
      | done ].
  - intros w inputs f v a s' Hin Hrun.
    destruct (api_key_missing w) eqn:Hkey.
    { by rewrite edit_without_key in Hrun. }
    destruct (edit_cases w inputs s Hkey)
      as (r & s1 & Hrun' & [[Hr ->]|(i' & cp & blob & Hin' & _ & -> & _)]);
      rewrite Hrun in Hrun'.
    { injection Hrun' as <- _. done. }
    injection Hrun' as -> -> -> _.
    rewrite Hin in Hin'. injection Hin' as <-.
    by rewrite resolve_asset_name_run.
Qed.

Lemma edit_asset_name_resolution_witness :
  ¬ name_is_set (edit_asset_name kitchen_edit)
  ∧ (∃ a, resolve_asset_name kitchen_edit fresh_session = (inr a, fresh_session)
       ∧ before_first "_v" "kitchen_renovation_v1.png" a)
  ∧ resolve_asset_name kitchen_edit session_after_generate
    = (inr "kitchen_renovation", session_after_generate).
Proof.
  split; [intros (n & Hn & _); discriminate Hn|]. split.
  - destruct (proj1 (edit_asset_name_resolution kitchen_edit fresh_session))
      as (a & Hrun & _ & Hfirst & _).
    { intros (n & Hn & _). discriminate Hn. }
    exists a. split; [exact Hrun|]. apply Hfirst.
    + intros (n & Hn & _). discriminate Hn.
    + by exists "kitchen_renovation", "1.png".
  - apply (proj2 (edit_asset_name_resolution kitchen_edit session_after_generate)
             (sample_world [image_chunk] None false (inr 0)) (AsObject kitchen_edit)
             "kitchen_renovation_v2.png" 2 "kitchen_renovation"
             (edit_renovation_rendering
                (sample_world [image_chunk] None false (inr 0))
                (AsObject kitchen_edit) session_after_generate).2).
    + reflexivity.
    + by vm_compute.
Defined.

End image_tools.

(** * Further properties of the code *)

(** ** Versioned file names *)

Section versioned_filenames.

Implicit Types (a b : string) (v w : Z) (l r : list ascii) (c : ascii).

(** The characters [pretty] prints for a number: digits and the sign. *)
Lemma pretty_N_char_not_underscore (x : N) : pretty_N_char x ≠ "_"%char.
Proof. unfold pretty_N_char. by repeat case_match. Qed.

Lemma pretty_N_go_no_underscore (x : N) (s : string) :
  "_"%char ∉ String.list_ascii_of_string s →
  "_"%char ∉ String.list_ascii_of_string (pretty_N_go x s).
Proof.
  revert s. induction (N.lt_wf_0 x) as [x _ IH]; intros s Hs.
  assert (x = 0 ∨ 0 < x)%N as [->|Hpos] by lia.
  - by rewrite pretty_N_go_0.
  - rewrite pretty_N_go_step by done. apply IH.
    { by apply N.div_lt. }
    simpl. intros [Heq|Hin]%elem_of_cons; [|done].
    by apply (pretty_N_char_not_underscore (x `mod` 10)%N).
Qed.

Lemma pretty_Z_no_underscore v :
  "_"%char ∉ String.list_ascii_of_string (pretty v).
Proof.
  assert (∀ p : positive,
            "_"%char ∉ String.list_ascii_of_string (pretty p)) as Hpos.
  { intros p. unfold pretty, pretty_positive, pretty, pretty_N.
    case_decide; [done|]. apply pretty_N_go_no_underscore. simpl.
    apply not_elem_of_nil. }
  destruct v as [|p|p]; unfold pretty, pretty_Z.
  - simpl. by intros [?|?%elem_of_nil]%elem_of_cons.
  - apply Hpos.
  - rewrite list_ascii_of_string_app. simpl.
    intros [?|Hin]%elem_of_cons; [done|]. by apply (Hpos p).
Qed.

(** A list is cut in one way only at the last occurrence of [c]. *)
Lemma cut_at_last l1 l2 r1 r2 c :
  c ∉ r1 → c ∉ r2 → l1 ++ c :: r1 = l2 ++ c :: r2 → l1 = l2 ∧ r1 = r2.
Proof.
  intros H1 H2 Heq.
  apply (f_equal reverse) in Heq.
  rewrite !reverse_app, !reverse_cons, <- !(assoc_L (++)) in Heq. simpl in Heq.
  assert (∀ p1 p2 q1 q2, c ∉ p1 → c ∉ p2 →
            p1 ++ c :: q1 = p2 ++ c :: q2 → p1 = p2 ∧ q1 = q2) as Hfirst.
  { clear. induction p1 as [|x p1 IH]; intros [|y p2] q1 q2 Hp1 Hp2 Heq;
      simpl in Heq.
    - by injection Heq as ->.
    - injection Heq as -> _. destruct Hp2. by left.
    - injection Heq as -> _. destruct Hp1. by left.
    - injection Heq as -> Heq.
      apply IH in Heq as [-> ->]; [done|..].
      + intros ?. apply Hp1. by right.
      + intros ?. apply Hp2. by right. }
  apply Hfirst in Heq as [Hr Hl].
  - split.
    + by apply (inj reverse).
    + by apply (inj reverse).
  - by rewrite elem_of_reverse.
  - by rewrite elem_of_reverse.
Qed.

Lemma create_versioned_filename_chars a v ext :
  String.list_ascii_of_string (create_versioned_filename a v ext)
  = (String.list_ascii_of_string a
     ++ "_"%char :: "v"%char :: String.list_ascii_of_string (pretty v))
    ++ "."%char :: String.list_ascii_of_string ext.
Proof.
  unfold create_versioned_filename.
  rewrite !list_ascii_of_string_app, <- (assoc_L (++)). done.
Qed.

(** Two versioned file names with one extension are equal only for the
    same asset and version. *)
Lemma versioned_filename_cut a b v w ext :
  create_versioned_filename a v ext = create_versioned_filename b w ext →
  a = b ∧ v = w.
Proof.
  intros Heq. apply (f_equal String.list_ascii_of_string) in Heq.
  rewrite !create_versioned_filename_chars in Heq.
  apply app_inv_tail in Heq.
  apply cut_at_last in Heq as [Ha Hv].
  - split; [by apply list_ascii_of_string_inj|].
    injection Hv as Hv. apply list_ascii_of_string_inj in Hv.
    by apply (inj pretty).
  - intros [?|?]%elem_of_cons; [done|]. by apply (pretty_Z_no_underscore v).
  - intros [?|?]%elem_of_cons; [done|]. by apply (pretty_Z_no_underscore w).
Qed.

(** X1: for one extension, the versioned file name determines both the
    asset name and the version: two different (asset, version) pairs
    never get the same file name. *)
Theorem create_versioned_filename_inj a b v w ext :
  create_versioned_filename a v ext = create_versioned_filename b w ext →
  a = b ∧ v = w.
Proof. apply versioned_filename_cut. Qed.

Lemma create_versioned_filename_inj_witness :
  create_versioned_filename "kitchen" 12 "png"
  = create_versioned_filename "kitchen" 12 "png"
  ∧ "kitchen" = "kitchen" ∧ 12 = 12.
Proof.
  split; [reflexivity|].
  apply (create_versioned_filename_inj "kitchen" "kitchen" 12 12 "png").
  reflexivity.
Defined.

End versioned_filenames.

(** ** Asset names recovered from file names *)

Section names_from_filenames.

Implicit Types (a rest : string) (v : Z) (s : Sys).

Lemma prefix_v_cons c a rest :
  String.prefix "_v" (String c a) = false →
  String.prefix "_v" (String c (a +:+ "_v" +:+ rest)) = false.
Proof.
  intros Hpre.
  destruct (String.prefix "_v" (String c (a +:+ "_v" +:+ rest))) eqn:Hlong; [|done].
  apply prefix_spec in Hlong as [q Hq]. injection Hq as -> Hq.
  destruct a as [|d a]; [by injection Hq|]. injection Hq as -> Hq.
  assert (String.prefix "_v" (String "_" (String "v" a)) = true) as Habs
    by (apply prefix_spec; by exists a).
  congruence.
Qed.

(** Cutting [a ++ "_v" ++ rest] at its first ["_v"] is cutting [a]. *)
Lemma split_head_versioned a rest :
  split_head "_v" (a +:+ "_v" +:+ rest) = split_head "_v" a.
Proof.
  induction a as [|c a IH].
  - by destruct rest.
  - rewrite (split_head_unfold "_v" (String c a)).
    destruct (String.prefix "_v" (String c a)) eqn:Hpre.
    + apply prefix_spec in Hpre as [q ->]. by destruct q, rest.
    + change (String c a +:+ "_v" +:+ rest)
        with (String c (a +:+ "_v" +:+ rest)).
      rewrite split_head_unfold, (prefix_v_cons c a rest Hpre). by rewrite IH.
Qed.

Lemma split_head_id a : split_head "_v" a = a ↔ contains "_v" a = false.
Proof.
  split.
  - intros Hid. destruct (contains "_v" a) eqn:Hc; [|done].
    destruct (split_head_spec "_v" a Hc) as [[rest Hrest] _].
    rewrite Hid in Hrest.
    apply (f_equal String.length) in Hrest.
    revert Hrest. clear. induction a as [|c a IH]; [done|].
    change (String c a +:+ "_v" +:+ rest) with (String c (a +:+ "_v" +:+ rest)).
    simpl. intros [= ?]. auto.
  - induction a as [|c a IH]; [done|].
    rewrite contains_unfold, split_head_unfold.
    destruct (String.prefix "_v" (String c a)); [done|].
    intros Hc. by rewrite (IH Hc).
Qed.

(** X2: an edit that names no asset, in a state without current asset,
    takes the asset name from the file name; for a file named by
    [create_versioned_filename a v ext] that is [a] cut at its first
    ["_v"]: [a] itself exactly when [a] contains no ["_v"], a proper
    prefix (["kitchen"] for ["kitchen_vintage"]) otherwise. *)
Theorem edit_of_versioned_file_resolves_to_prefix i s a v ext :
  ¬ name_is_set (edit_asset_name i) →
  ¬ name_is_set (current_asset_name (session s)) →
  edit_artifact_filename i = create_versioned_filename a v ext →
  resolve_asset_name i s = (inr (split_head "_v" a), s)
  ∧ (split_head "_v" a = a ↔ ¬ occurs "_v" a).
Proof.
  intros Hin Hcur Hfile. split.
  - rewrite resolve_asset_name_run. unfold resolved_asset_name. rewrite Hfile.
    assert (contains "_v" (create_versioned_filename a v ext) = true) as ->.
    { apply contains_spec. by exists a, (pretty v +:+ "." +:+ ext). }
    unfold create_versioned_filename. rewrite split_head_versioned.
    destruct (edit_asset_name i) as [[|c0 n0]|];
      [| by destruct Hin; exists (String c0 n0) |];
      (destruct (current_asset_name (session s)) as [[|c n]|];
       [done | by destruct Hcur; exists (String c n) | done]).
  - rewrite split_head_id, <- contains_spec. by destruct (contains "_v" a).
Qed.

Lemma edit_of_versioned_file_resolves_to_prefix_witness :
  let i := edit_of (create_versioned_filename "kitchen_vintage" 1 "png") in
  ¬ name_is_set (edit_asset_name i)
  ∧ ¬ name_is_set (current_asset_name (session fresh_session))
  ∧ resolve_asset_name i fresh_session = (inr "kitchen", fresh_session).
Proof.
  intros i.
  assert (¬ name_is_set None) as Hnone by (intros (n & Hn & _); discriminate Hn).
  split; [exact Hnone|]. split; [exact Hnone|].
  apply (proj1 (edit_of_versioned_file_resolves_to_prefix i fresh_session
                  "kitchen_vintage" 1 "png" Hnone Hnone eq_refl)).
Defined.

End names_from_filenames.

(** ** The exact effect of a call *)

Section exact_effect.

Implicit Types (w : World) (s : Sys) (a b f : string) (v : Z) (c : call).

Lemma State_eq (st1 st2 : State) :
  asset_versions st1 = asset_versions st2 →
  asset_filenames st1 = asset_filenames st2 →
  histories st1 = histories st2 →
  last_generated_rendering st1 = last_generated_rendering st2 →
  current_asset_name st1 = current_asset_name st2 →
  latest_reference_image st1 = latest_reference_image st2 →
  st1 = st2.
Proof. destruct st1, st2; simpl; by intros -> -> -> -> -> ->. Qed.

Lemma generate_store_image_state w inputs f blob s :
  let a := gen_asset_name inputs in
  let next := current_version_of (session s) a + 1 in
  generate_store_image w inputs f blob s
  = (inr (RenderingGenerated f next a),
     committed_state s a (generate_committed_version w f blob next) f
       (disk_after_write w f blob (disk s))).
Proof.
  intros a next. subst next.
  unfold generate_store_image, generate_committed_version, disk_after_write,
    write_to_disk, current_version_of, committed_state.
  destruct (save_artifact_safely w f (mkPart (Some blob) None)) as [saved av].
  unfold mbind, tool_bind, disk_write, state_write, get_next_version_number,
    state_read, mret, tool_ret. fold a.
  destruct (open_write_error w f); simpl;
    match goal with
    | |- context [ (if ?c then update_asset_version _ ?v1 _
                    else update_asset_version _ ?v2 _) ?st ] =>
        destruct (update_asset_version_run a (if c then v1 else v2) f st)
          as (st' & Hrun & Hv & Hf & Hh & Hlg & Hca & Hlr);
        destruct c; cbv iota in Hrun |- *; rewrite Hrun
    end;
    simpl in *; do 2 f_equal; by apply State_eq.
Qed.

Lemma edit_store_image_state w a f blob s :
  let next := current_version_of (session s) a + 1 in
  edit_store_image w a f blob s
  = (inr (RenderingEdited f next a),
     committed_state s a next f (disk_after_write w f blob (disk s))).
Proof.
  intros next. subst next.
  unfold edit_store_image, disk_after_write, write_to_disk, current_version_of,
    committed_state.
  destruct (save_artifact_safely w f (mkPart (Some blob) None)) as [saved av].
  unfold mbind, tool_bind, disk_write, state_write, get_next_version_number,
    state_read, mret, tool_ret.
  destruct (open_write_error w f); simpl;
    match goal with
    | |- context [ update_asset_version _ ?v _ ?st ] =>
        destruct (update_asset_version_run a v f st)
          as (st' & Hrun & Hv & Hf & Hh & Hlg & Hca & Hlr);
        rewrite Hrun
    end;
    simpl in *; do 2 f_equal; by apply State_eq.
Qed.

(** A generation call fails and changes nothing, or leaves exactly the
    committed state. *)
Lemma generate_exact w inputs s :
  let r := generate_renovation_rendering w inputs s in
  (succeeded r.1 = false ∧ r.2 = s)
  ∨ (∃ i blob,
       let a := gen_asset_name i in
       let next := current_version_of (session s) a + 1 in
       let f := create_versioned_filename a next "png" in
       parsed inputs = inr i
       ∧ truthy (data blob) = true
       ∧ r = (inr (RenderingGenerated f next a),
              committed_state s a (generate_committed_version w f blob next) f
                (disk_after_write w f blob (disk s)))).
Proof.
  intros r. subst r.
  unfold generate_renovation_rendering, try_except.
  destruct (api_key_missing w); [by left|].
  rewrite generate_body_run.
  destruct (generate_prepare w inputs s).1 as [e|[i content_parts]] eqn:Hprep;
    [by left|].
  apply generate_prepare_inputs in Hprep. simpl.
  destruct (generate_scan _ _) as [e|[blob|]] eqn:Hscan; [by left| |by left].
  rewrite generate_store_image_state. right. exists i, blob.
  split; [done|]. split; [by eapply generate_scan_image | done].
Qed.

Lemma edit_exact w inputs s :
  let r := edit_renovation_rendering w inputs s in
  (succeeded r.1 = false ∧ r.2 = s)
  ∨ (∃ i blob,
       let a := resolved_asset_name i (session s) in
       let next := current_version_of (session s) a + 1 in
       let f := create_versioned_filename a next "png" in
       parsed inputs = inr i
       ∧ truthy (data blob) = true
       ∧ r = (inr (RenderingEdited f next a),
              committed_state s a next f (disk_after_write w f blob (disk s)))).
Proof.
  intros r. subst r.
  unfold edit_renovation_rendering, try_except.
  destruct (api_key_missing w); [by left|].
  rewrite edit_body_run.
  destruct (genai_Client w) as [e|[]]; [by left|].
  destruct (parsed inputs) as [e|i] eqn:Hin; [by left|].
  destruct (load_source_image_run w (edit_artifact_filename i) s) as [[p|] ->];
    simpl; [|by left].
  rewrite edit_loaded_run. simpl.
  destruct (edit_scan _ _) as [e|[blob|]] eqn:Hscan; [by left| |by left].
  rewrite edit_store_image_state. right. exists i, blob.
  split; [done|]. split; [by eapply edit_scan_image | done].
Qed.

(** Either tool: nothing changes, or the next version [v] of some asset
    [a] is reported, its file [f] is named after [v], and the state is
    the committed one; the committed version is [v] unless a generation
    takes the artifact service's; the disk went through the guarded
    write of the image. *)
Lemma run_call_exact c s :
  let r := run_call c s in
  (succeeded r.1 = false ∧ r.2 = s)
  ∨ (∃ a vc blob,
       let v := current_version_of (session s) a + 1 in
       let f := create_versioned_filename a v "png" in
       (r.1 = inr (RenderingGenerated f v a) ∨ r.1 = inr (RenderingEdited f v a))
       ∧ r.2 = committed_state s a vc f
                 (disk_after_write (call_world c) f blob (disk s))
       ∧ (commits_local_version c → vc = v)
       ∧ truthy (data blob) = true).
Proof.
  destruct c as [w inputs|w inputs]; simpl.
  - destruct (generate_exact w inputs s) as [?|(i & blob & _ & Hblob & Hrun)];
      [by left|]. right. simpl in Hrun. rewrite Hrun. simpl.
    eexists _, _, blob. split; [by left|]. split; [done|]. split; [|done].
    intros Hlocal. unfold generate_committed_version. by rewrite Hlocal.
  - destruct (edit_exact w inputs s) as [?|(i & blob & _ & Hblob & Hrun)];
      [by left|]. right. simpl in Hrun. rewrite Hrun. simpl.
    eexists _, _, blob. split; [by right|]. by split.
Qed.

(** What the read accessors see in a committed state. *)
Lemma committed_state_known s a v f d b :
  known_version (session (committed_state s a v f d)) b
  = if decide (b = a) then Some v else known_version (session s) b.
Proof.
  unfold known_version. simpl. case_decide; subst.
  - by rewrite lookup_insert_eq.
  - by rewrite lookup_insert_ne.
Qed.

Lemma committed_state_version s a v f d b :
  current_version_of (session (committed_state s a v f d)) b
  = if decide (b = a) then v else current_version_of (session s) b.
Proof.
  unfold current_version_of. simpl. case_decide; subst.
  - by rewrite lookup_insert_eq.
  - by rewrite lookup_insert_ne.
Qed.

Lemma committed_state_filename s a v f d b :
  current_filename_of (session (committed_state s a v f d)) b
  = if decide (b = a) then Some f else current_filename_of (session s) b.
Proof.
  unfold current_filename_of. simpl. case_decide; subst.
  - by rewrite lookup_insert_eq.
  - by rewrite lookup_insert_ne.
Qed.

Lemma committed_state_history s a v f d b :
  history_of (session (committed_state s a v f d)) b
  = if decide (b = a) then history_of (session s) a ++ [Entry v f]
    else history_of (session s) b.
Proof.
  unfold history_of at 1. simpl. case_decide; subst.
  - by rewrite lookup_insert_eq.
  - rewrite lookup_insert_ne; [done|].
    intros Heq. by apply asset_history_key_inj in Heq.
Qed.

(** A property that every call of a kind keeps holds after a session
    of such calls. *)
Lemma run_calls_preserve (Q : call → Prop) (P : Sys → Prop) cs s :
  (∀ c s0, Q c → P s0 → P (run_call c s0).2) →
  Forall Q cs → P s → P (run_calls cs s).2.
Proof.
  intros Hstep Hcs. revert s.
  induction Hcs as [|c cs Hc _ IH]; intros s Hs; simpl; [done|].
  specialize (Hstep c s Hc Hs).
  destruct (run_call c s) as [out s1]. specialize (IH s1 Hstep).
  by destruct (run_calls cs s1) as [outs s2].
Qed.

Lemma Forall_any_call cs : Forall (λ _ : call, True) cs.
Proof. by apply Forall_forall. Qed.

End exact_effect.

(** ** Invariants of a session *)

Section session_invariants.

Implicit Types (w : World) (s : Sys) (a b f : string) (v : Z) (c : call).

Lemma store_consistent_step c s :
  store_consistent (session s) → store_consistent (session (run_call c s).2).
Proof.
  intros Hinv.
  destruct (run_call_exact c s) as [[_ ->]|(a & vc & d & _ & -> & _)]; [done|].
  intros b. rewrite committed_state_known, committed_state_filename,
    committed_state_history.
  case_decide; [|apply Hinv]. by rewrite last_snoc.
Qed.

(** X3: in every state a fresh session reaches through the two tools,
    whatever the collaborators answer, the version map, the file name
    map and the histories agree: an asset has a current version exactly
    if it has a current file name and a non-empty history, and both are
    those of its last history entry. *)
Theorem session_store_consistent cs d :
  store_consistent (session (run_calls cs (mkSys empty_state d)).2).
Proof.
  apply (run_calls_preserve (λ _, True) (λ s, store_consistent (session s))).
  - intros c s _. apply store_consistent_step.
  - apply Forall_any_call.
  - by intros a.
Qed.

Lemma current_asset_consistent_step c s :
  current_asset_consistent (session s) →
  current_asset_consistent (session (run_call c s).2).
Proof.
  intros Hinv.
  destruct (run_call_exact c s) as [[_ ->]|(a & vc & d & _ & -> & _)]; [done|].
  unfold current_asset_consistent. simpl. eexists. split; [done|].
  unfold current_filename_of. simpl. by rewrite lookup_insert_eq.
Qed.

(** X4: in every state a fresh session reaches, the current asset and
    the last rendering go together: either nothing was committed yet
    and both are unset, or the last rendering is the current file of the
    current asset. *)
Theorem session_current_asset_consistent cs d :
  current_asset_consistent (session (run_calls cs (mkSys empty_state d)).2).
Proof.
  apply (run_calls_preserve (λ _, True)
           (λ s, current_asset_consistent (session s))).
  - intros c s _. apply current_asset_consistent_step.
  - apply Forall_any_call.
  - done.
Qed.

Lemma histories_canonical_step c s :
  commits_local_version c →
  histories_canonical (session s)
  ∧ (∀ a, 0 ≤ current_version_of (session s) a) →
  histories_canonical (session (run_call c s).2)
  ∧ (∀ a, 0 ≤ current_version_of (session (run_call c s).2) a).
Proof.
  intros Hlocal [Hinv Hpos].
  destruct (run_call_exact c s) as [[_ ->]|(a & vc & d & _ & -> & Hvc & _)];
    [done|].
  rewrite (Hvc Hlocal). split.
  - intros b. rewrite committed_state_version, committed_state_history.
    case_decide; [subst b|apply Hinv].
    rewrite seqZ_snoc by apply Hpos. rewrite fmap_app. by rewrite <- Hinv.
  - intros b. rewrite committed_state_version. case_decide; [|apply Hpos].
    specialize (Hpos a). lia.
Qed.

Lemma session_histories_canonical cs d :
  Forall commits_local_version cs →
  histories_canonical (session (run_calls cs (mkSys empty_state d)).2)
  ∧ (∀ a, 0 ≤ current_version_of (session (run_calls cs (mkSys empty_state d)).2) a).
Proof.
  intros Hlocal.
  apply (run_calls_preserve commits_local_version
           (λ s, histories_canonical (session s)
                 ∧ ∀ a, 0 ≤ current_version_of (session s) a)); [|done|].
  - intros c s. apply histories_canonical_step.
  - split; [|done]. intros a. by vm_compute.
Qed.

(** X5: in a session that starts fresh and in which every generation
    commits its own version number, the history of each asset is
    exactly the entries (k, "{asset}_v{k}.png") for k = 1 .. n: every
    recorded file name is the one made from its version. *)
Theorem session_history_entries cs d a :
  Forall commits_local_version cs →
  let st := session (run_calls cs (mkSys empty_state d)).2 in
  history_of st a
  = (λ k, Entry k (create_versioned_filename a k "png"))
      <$> seqZ 1 (current_version_of st a).
Proof. intros Hlocal st. by apply session_histories_canonical. Qed.

Lemma session_history_entries_witness :
  Forall commits_local_version session_generate_then_edit
  ∧ history_of (session (run_calls session_generate_then_edit fresh_session).2)
      "kitchen_renovation"
    = (λ k, Entry k (create_versioned_filename "kitchen_renovation" k "png"))
        <$> seqZ 1 (current_version_of
                      (session (run_calls session_generate_then_edit fresh_session).2)
                      "kitchen_renovation").
Proof.
  split; [apply session_generate_then_edit_local|].
  apply (session_history_entries session_generate_then_edit ∅ "kitchen_renovation"
           session_generate_then_edit_local).
Defined.

(** X6: in such a session no file name is recorded twice: two history
    entries with the same file name, of whatever assets, are the same
    entry of the same asset, so no rendering overwrites another. *)
Theorem session_filenames_unique cs d a b e1 e2 :
  Forall commits_local_version cs →
  let st := session (run_calls cs (mkSys empty_state d)).2 in
  e1 ∈ history_of st a → e2 ∈ history_of st b →
  entry_filename e1 = entry_filename e2 →
  a = b ∧ e1 = e2.
Proof.
  intros Hlocal st.
  destruct (session_histories_canonical cs d Hlocal) as [Hinv _]. fold st in Hinv.
  rewrite (Hinv a), (Hinv b).
  intros (k1 & -> & _)%list_elem_of_fmap (k2 & -> & _)%list_elem_of_fmap. simpl.
  intros Hf. apply versioned_filename_cut in Hf as [-> ->]. done.
Qed.

Lemma session_filenames_unique_witness :
  let st := session (run_calls session_generate_then_edit fresh_session).2 in
  Forall commits_local_version session_generate_then_edit
  ∧ Entry 2 "kitchen_renovation_v2.png" ∈ history_of st "kitchen_renovation"
  ∧ ("kitchen_renovation" = "kitchen_renovation"
     ∧ Entry 2 "kitchen_renovation_v2.png" = Entry 2 "kitchen_renovation_v2.png").
Proof.
  intros st.
  assert (Entry 2 "kitchen_renovation_v2.png" ∈ history_of st "kitchen_renovation")
    as Hin.
  { vm_compute. apply list_elem_of_In. right. left. reflexivity. }
  split; [apply session_generate_then_edit_local|]. split; [exact Hin|].
  apply (session_filenames_unique session_generate_then_edit ∅
           "kitchen_renovation" "kitchen_renovation"
           (Entry 2 "kitchen_renovation_v2.png") (Entry 2 "kitchen_renovation_v2.png")
           session_generate_then_edit_local Hin Hin eq_refl).
Defined.

(** X7: histories are append-only: after any series of calls the
    history an asset had before is a prefix of the one it has then. *)
Theorem session_history_append_only cs s a :
  history_of (session s) a `prefix_of` history_of (session (run_calls cs s).2) a.
Proof.
  revert s. induction cs as [|c cs IH]; intros s; simpl; [done|].
  destruct (run_call c s) as [out s1] eqn:Hcall.
  specialize (IH s1).
  destruct (run_calls cs s1) as [outs s2]. simpl in *.
  etrans; [|exact IH].
  pose proof (run_call_exact c s) as Hexact. rewrite Hcall in Hexact.
  simpl in Hexact.
  destruct Hexact as [[_ ->]|(b & vc & d & _ & -> & _)]; [done|].
  rewrite committed_state_history. case_decide; [subst|done].
  by apply prefix_app_r.
Qed.

(** X8: a call touches one asset only: for every asset other than the
    one its reply reports (for every asset, when it reports none), the
    version, the file name and the history are what they were. *)
Theorem call_leaves_other_assets c s b :
  let r := run_call c s in
  commits_to b r.1 = false →
  known_version (session r.2) b = known_version (session s) b
  ∧ current_filename_of (session r.2) b = current_filename_of (session s) b
  ∧ history_of (session r.2) b = history_of (session s) b.
Proof.
  intros r Hother. subst r.
  destruct (run_call_exact c s) as [[_ ->]|(a & vc & d & Hout & -> & _)]; [done|].
  assert (b ≠ a) as Hne.
  { intros ->. destruct Hout as [Hout|Hout]; rewrite Hout in Hother;
      simpl in Hother; by rewrite bool_decide_true in Hother. }
  rewrite committed_state_known, committed_state_filename, committed_state_history.
  by rewrite !decide_False.
Qed.

Lemma call_leaves_other_assets_witness :
  let s := session_after_generate in
  let r := run_call (CallEdit (sample_world [image_chunk] None false (inr 0))
                       (AsObject kitchen_edit)) s in
  commits_to "bathroom_spa" r.1 = false
  ∧ known_version (session r.2) "bathroom_spa" = known_version (session s) "bathroom_spa"
  ∧ current_filename_of (session r.2) "bathroom_spa"
    = current_filename_of (session s) "bathroom_spa"
  ∧ history_of (session r.2) "bathroom_spa" = history_of (session s) "bathroom_spa".
Proof.
  intros s r. split; [by vm_compute|].
  apply (call_leaves_other_assets
           (CallEdit (sample_world [image_chunk] None false (inr 0))
              (AsObject kitchen_edit)) s "bathroom_spa").
  by vm_compute.
Defined.

(** X9: neither tool ever sets [latest_reference_image]; in a session
    driven by the two tools the name "latest" therefore resolves to no
    reference image, and an edit that asks for it sends the image and
    the prompt only. *)
Theorem latest_reference_never_set cs d :
  let st := session (run_calls cs (mkSys empty_state d)).2 in
  latest_reference_image st = None
  ∧ ∀ w i p, edit_reference_image_filename i = Some "latest" →
             edit_content_parts w i p st = [p; Part_from_text (edit_prompt i)].
Proof.
  intros st.
  assert (latest_reference_image st = None) as Hnone.
  { apply (run_calls_preserve (λ _, True)
             (λ s, latest_reference_image (session s) = None));
      [|apply Forall_any_call|done].
    intros c s _ Hs.
    by destruct (run_call_exact c s) as [[_ ->]|(a & vc & d' & _ & -> & _)]. }
  split; [done|]. intros w i p Hlatest.
  unfold edit_content_parts. by rewrite Hlatest, Hnone.
Qed.

Lemma latest_reference_never_set_witness :
  let st := session (run_calls session_generate_then_edit fresh_session).2 in
  let i := mkEditInput "kitchen_renovation_v2.png" "add pendant lights" None
             (Some "latest") in
  edit_reference_image_filename i = Some "latest"
  ∧ edit_content_parts (sample_world [] None false (inr 0)) i
      (Part_from_text "image") st
    = [Part_from_text "image"; Part_from_text "add pendant lights"].
Proof.
  intros st i. split; [reflexivity|].
  apply (proj2 (latest_reference_never_set session_generate_then_edit ∅)). reflexivity.
Defined.

End session_invariants.

(** ** The two tools together *)

Section tools_together.

Implicit Types (w : World) (s : Sys) (a b f : string) (v : Z) (c : call).

Lemma disk_after_write_other w f blob (d : gmap string string) name :
  name ≠ f → disk_after_write w f blob d !! name = d !! name.
Proof.
  intros Hne. unfold disk_after_write, failed_write.
  destruct (open_write_error w f) as [[e [n|]]|]; simpl;
    by rewrite ?lookup_insert_ne.
Qed.

Lemma disk_after_write_keeps w f blob (d : gmap string string) name :
  is_Some (d !! name) → is_Some (disk_after_write w f blob d !! name).
Proof.
  intros Hsome. unfold disk_after_write, failed_write.
  destruct (open_write_error w f) as [[e [n|]]|]; simpl; [|done|];
    (destruct (decide (name = f)) as [->|Hne];
     [rewrite lookup_insert_eq; eauto | by rewrite lookup_insert_ne]).
Qed.

(** X10: a call writes at most the file its reply reports: every other
    file on the disk is untouched (every file, when the call does not
    succeed), and no series of calls ever removes a file. *)
Theorem calls_write_reported_file_only :
  (∀ c s name,
     reported_file (run_call c s).1 ≠ Some name →
     disk (run_call c s).2 !! name = disk s !! name)
  ∧ (∀ cs s name,
       is_Some (disk s !! name) → is_Some (disk (run_calls cs s).2 !! name)).
Proof.
  assert (∀ c s name, is_Some (disk s !! name) →
            is_Some (disk (run_call c s).2 !! name)) as Hkeep.
  { intros c s name Hsome.
    destruct (run_call_exact c s) as [[_ ->]|(a & vc & blob & _ & -> & _)];
      [done|]. simpl. by apply disk_after_write_keeps. }
  split.
  - intros c s name Hother.
    destruct (run_call_exact c s) as [[_ ->]|(a & vc & blob & Hout & Hs & _)];
      [done|]. rewrite Hs. simpl. apply disk_after_write_other.
    intros ->. apply Hother. by destruct Hout as [-> | ->].
  - intros cs s name.
    apply (run_calls_preserve (λ _, True) (λ s0, is_Some (disk s0 !! name)));
      [|apply Forall_any_call].
    intros c s0 _. apply Hkeep.
Qed.

Lemma calls_write_reported_file_only_witness :
  let c := CallGenerate failing_artifact_world (AsObject kitchen_request) in
  let s := mkSys empty_state {["photo.jpg" := "JPEG"]} in
  reported_file (run_call c s).1 ≠ Some "photo.jpg"
  ∧ disk (run_call c s).2 !! "photo.jpg" = Some "JPEG"
  ∧ is_Some (disk (run_calls session_generate_then_edit s).2 !! "photo.jpg").
Proof.
  intros c s.
  assert (reported_file (run_call c s).1 ≠ Some "photo.jpg") as Hother
    by (by vm_compute).
  split; [exact Hother|]. split.
  - rewrite (proj1 calls_write_reported_file_only c s "photo.jpg" Hother).
    reflexivity.
  - apply (proj2 calls_write_reported_file_only). by exists "JPEG".
Defined.

Lemma edit_loaded_never_not_found w i p s f :
  (edit_loaded w i p s).1 ≠ inr (ImageNotFound f).
Proof.
  rewrite edit_loaded_run. simpl.
  destruct (edit_scan _ _) as [e|[blob|]]; try done.
  by rewrite edit_store_image_state.
Qed.

(** X11: a rendering that a call reports and whose local write did not
    fail can be edited afterwards: in any surroundings that can read the
    file, loading it succeeds (from the disk when the artifact service
    has nothing), so the edit tool never answers that it could not find
    the image. *)
Theorem reported_rendering_can_be_edited c s f w2 :
  reported_file (run_call c s).1 = Some f →
  open_write_error (call_world c) f = None →
  open_read_error w2 f = None →
  let s' := (run_call c s).2 in
  (∃ p, load_source_image w2 f s' = (inr (Some p), s'))
  ∧ (∀ inputs i, parsed inputs = inr i → edit_artifact_filename i = f →
       (edit_renovation_rendering w2 inputs s').1 ≠ inr (ImageNotFound f)).
Proof.
  intros Hrep Hwrite Hread s'.
  assert (is_Some (disk s' !! f)) as [bytes Hbytes].
  { subst s'.
    destruct (run_call_exact c s) as [[Hfail _]|(a & vc & blob & Hout & Hs & _)].
    - destruct (run_call c s).1 as [e|[]]; simpl in *; done.
    - assert (f = create_versioned_filename a
                    (current_version_of (session s) a + 1) "png") as ->.
      { destruct Hout as [Hout|Hout]; rewrite Hout in Hrep; by injection Hrep. }
      rewrite Hs. simpl. unfold disk_after_write. rewrite Hwrite.
      rewrite lookup_insert_eq. eauto. }
  assert (∃ p, load_source_image w2 f s' = (inr (Some p), s')) as [p Hload].
  { unfold load_source_image, load_image_from_file, mbind, tool_bind, disk_read.
    destruct (load_artifact w2 f) as [e|[p|]]; simpl; eauto;
      rewrite Hbytes, Hread; simpl; eauto. }
  split; [by exists p|].
  intros inputs i Hin Hfile.
  unfold edit_renovation_rendering, try_except.
  destruct (api_key_missing w2); [done|].
  rewrite edit_body_run, Hin, Hfile, Hload.
  destruct (genai_Client w2) as [e|[]]; [done|]. simpl.
  pose proof (edit_loaded_never_not_found w2 i p s' f) as Hnot.
  destruct (edit_loaded w2 i p s') as [[e|r] s2]; simpl in *; [done|].
  congruence.
Qed.

Lemma reported_rendering_can_be_edited_witness :
  let c := CallGenerate failing_artifact_world (AsObject kitchen_request) in
  let w2 := sample_world [image_chunk] None false (inr 0) in
  reported_file (run_call c fresh_session).1 = Some "kitchen_renovation_v1.png"
  ∧ (edit_renovation_rendering w2 (AsObject kitchen_edit)
       (run_call c fresh_session).2).1
    ≠ inr (ImageNotFound "kitchen_renovation_v1.png").
Proof.
  intros c w2.
  assert (reported_file (run_call c fresh_session).1
          = Some "kitchen_renovation_v1.png") as Hrep by (by vm_compute).
  split; [exact Hrep|].
  apply (proj2 (reported_rendering_can_be_edited c fresh_session
                  "kitchen_renovation_v1.png" w2 Hrep eq_refl eq_refl)
           (AsObject kitchen_edit) kitchen_edit); reflexivity.
Defined.

(** X12: after a call succeeded for a non-empty asset name, an edit that
    names no asset goes to that asset, whatever file it edits: the file
    name is only consulted while the state has no current asset. *)
Theorem edit_defaults_to_current_asset c s i a :
  reported_asset (run_call c s).1 = Some a →
  a ≠ "" →
  ¬ name_is_set (edit_asset_name i) →
  resolve_asset_name i (run_call c s).2 = (inr a, (run_call c s).2).
Proof.
  intros Hrep Ha Hin. rewrite resolve_asset_name_run. do 2 f_equal.
  destruct (run_call_exact c s) as [[Hfail _]|(a' & vc & blob & Hout & Hs & _)].
  - destruct (run_call c s).1 as [e|[]]; simpl in *; done.
  - assert (a' = a) as ->.
    { destruct Hout as [Hout|Hout]; rewrite Hout in Hrep; by injection Hrep. }
    rewrite Hs. unfold resolved_asset_name. simpl.
    destruct (edit_asset_name i) as [[|c0 n0]|];
      [| by destruct Hin; exists (String c0 n0) |]; by destruct a.
Qed.

Lemma edit_defaults_to_current_asset_witness :
  let c := CallGenerate failing_artifact_world (AsObject kitchen_request) in
  let i := edit_of "messy kitchen .jpg" in
  reported_asset (run_call c fresh_session).1 = Some "kitchen_renovation"
  ∧ ¬ name_is_set (edit_asset_name i)
  ∧ resolve_asset_name i (run_call c fresh_session).2
    = (inr "kitchen_renovation", (run_call c fresh_session).2).
Proof.
  intros c i.
  assert (reported_asset (run_call c fresh_session).1 = Some "kitchen_renovation")
    as Hrep by (by vm_compute).
  assert (¬ name_is_set (edit_asset_name i)) as Hin
    by (intros (n & Hn & _); discriminate Hn).
  split; [exact Hrep|]. split; [exact Hin|].
  apply (edit_defaults_to_current_asset c fresh_session i "kitchen_renovation"
           Hrep); [discriminate | exact Hin].
Defined.

(** X13: the edit tool does not use the artifact service for anything
    it returns or stores: with any other artifact service the reply,
    the session state and the disk come out the same. *)
Theorem edit_independent_of_artifact_service w has save inputs s :
  edit_renovation_rendering (with_artifact_service w has save) inputs s
  = edit_renovation_rendering w inputs s.
Proof.
  unfold edit_renovation_rendering, try_except.
  change (api_key_missing (with_artifact_service w has save))
    with (api_key_missing w).
  destruct (api_key_missing w); [done|].
  rewrite !edit_body_run.
  change (genai_Client (with_artifact_service w has save)) with (genai_Client w).
  destruct (genai_Client w) as [e|[]]; [done|].
  destruct (parsed inputs) as [e|i]; [done|].
  change (load_source_image (with_artifact_service w has save))
    with (load_source_image w).
  destruct (load_source_image_run w (edit_artifact_filename i) s) as [[p|] ->];
    simpl; [|done].
  rewrite !edit_loaded_run.
  change (edit_content_parts (with_artifact_service w has save))
    with (edit_content_parts w).
  change (generate_content_stream (with_artifact_service w has save))
    with (generate_content_stream w).
  simpl.
  destruct (edit_scan _ _) as [e|[blob|]]; try done.
  by rewrite !edit_store_image_state.
Qed.

(** X14: when the artifact service saves and answers a non-zero version
    [k], a successful generation reports the next version [v] of the
    asset and names the file after [v], but records [k]: [k] becomes the
    current version, [(k, file)] the last history entry, and the next
    version handed out is [k + 1]. *)
Theorem generation_records_artifact_version w inputs s k f v a s' :
  has_save_artifact w = true →
  (∀ filename artifact, save_artifact w filename artifact = inr k) →
  k ≠ 0 →
  generate_renovation_rendering w inputs s = (inr (RenderingGenerated f v a), s') →
  v = current_version_of (session s) a + 1
  ∧ f = create_versioned_filename a v "png"
  ∧ known_version (session s') a = Some k
  ∧ last (history_of (session s') a) = Some (Entry k f)
  ∧ get_next_version_number a s' = (inr (k + 1), s').
Proof.
  intros Hhas Hsave Hk Hrun.
  destruct (generate_exact w inputs s) as [[Hfail _]|(i & blob & _ & _ & Hexact)].
  { by rewrite Hrun in Hfail. }
  simpl in Hexact. rewrite Hrun in Hexact. injection Hexact as -> -> -> ->.
  assert (generate_committed_version w
            (create_versioned_filename (gen_asset_name i)
               (current_version_of (session s) (gen_asset_name i) + 1) "png")
            blob (current_version_of (session s) (gen_asset_name i) + 1) = k)
    as ->.
  { unfold generate_committed_version, save_artifact_safely.
    rewrite Hhas, Hsave. simpl. by destruct (Z.eqb_spec k 0). }
  split; [done|]. split; [done|].
  rewrite committed_state_known, committed_state_history, !decide_True by done.
  split; [done|]. split; [apply last_snoc|].
  rewrite get_next_version_number_run, committed_state_version.
  by rewrite decide_True.
Qed.

Lemma generation_records_artifact_version_witness :
  let r := generate_renovation_rendering versioning_artifact_world
             (AsObject kitchen_request) fresh_session in
  r.1 = inr (RenderingGenerated "kitchen_renovation_v1.png" 1 "kitchen_renovation")
  ∧ known_version (session r.2) "kitchen_renovation" = Some 7
  ∧ get_next_version_number "kitchen_renovation" r.2 = (inr 8, r.2).
Proof.
  intros r.
  assert (generate_renovation_rendering versioning_artifact_world
            (AsObject kitchen_request) fresh_session
          = (inr (RenderingGenerated "kitchen_renovation_v1.png" 1
                    "kitchen_renovation"), r.2)) as Hrun by (by vm_compute).
  destruct (generation_records_artifact_version versioning_artifact_world
              (AsObject kitchen_request) fresh_session 7
              "kitchen_renovation_v1.png" 1 "kitchen_renovation" r.2)
    as (_ & _ & Hknown & _ & Hnext).
  - reflexivity.
  - intros ??. reflexivity.
  - discriminate.
  - exact Hrun.
  - split; [by vm_compute|]. split; [exact Hknown | exact Hnext].
Defined.

(** X15: the two tools read a chunk differently.  Where the edit tool's
    test does not raise it finds what the generation tool's test finds;
    it raises [IndexError] exactly for a chunk with an empty candidate
    list or whose first candidate has an empty part list - chunks the
    generation tool skips.  On a stream without such chunks both loops
    find the same thing. *)
Theorem chunk_tests_agree :
  (∀ chunk,
     match edit_chunk_image chunk with
     | inr image => generate_chunk_image chunk = image ∧ ¬ chunk_breaks_edit chunk
     | inl e => e = index_error ∧ generate_chunk_image chunk = None
                ∧ chunk_breaks_edit chunk
     end)
  ∧ (∀ chunks stream_end,
       Forall (λ chunk, ¬ chunk_breaks_edit chunk) chunks →
       edit_scan chunks stream_end = generate_scan chunks stream_end).
Proof.
  assert (∀ chunk,
     match edit_chunk_image chunk with
     | inr image => generate_chunk_image chunk = image ∧ ¬ chunk_breaks_edit chunk
     | inl e => e = index_error ∧ generate_chunk_image chunk = None
                ∧ chunk_breaks_edit chunk
     end) as Hchunk.
  { intros chunk. unfold edit_chunk_image, generate_chunk_image, chunk_breaks_edit.
    destruct (candidates chunk) as [[|cand rest]|].
    - split; [done|]. split; [done|]. by left.
    - destruct (content cand) as [cn|] eqn:Hc.
      + destruct (parts cn) as [[|part ps]|] eqn:Hp.
        * split; [done|]. split; [done|]. right. by exists cand, rest, cn.
        * assert (¬ (Some (cand :: rest) = Some []
                     ∨ ∃ candidate rest0 ct,
                         Some (cand :: rest) = Some (candidate :: rest0)
                         ∧ content candidate = Some ct ∧ parts ct = Some []))
            as Hok.
          { intros [?|(x & r & ct & [= <- <-] & Hct & Hp0)]; [done|].
            rewrite Hc in Hct. injection Hct as <-. congruence. }
          destruct (inline_data part) as [b|]; [|done].
          by destruct (truthy (data b)).
        * split; [done|].
          intros [?|(x & r & ct & [= <- <-] & Hct & Hp0)]; [done|].
          rewrite Hc in Hct. injection Hct as <-. congruence.
      + split; [done|].
        intros [?|(x & r & ct & [= <- <-] & Hct & _)]; [done|]. congruence.
    - split; [done|]. intros [?|(x & r & ct & ? & _)]; done. }
  split; [exact Hchunk|].
  intros chunks stream_end Hok.
  induction Hok as [|chunk chunks Hgood _ IH]; simpl; [done|].
  specialize (Hchunk chunk).
  destruct (edit_chunk_image chunk) as [e|image].
  - by destruct Hchunk as (_ & _ & ?).
  - destruct Hchunk as [-> _]. by destruct image.
Qed.

Lemma chunk_tests_agree_witness :
  Forall (λ chunk, ¬ chunk_breaks_edit chunk) [text_chunk; image_chunk]
  ∧ edit_scan [text_chunk; image_chunk] None
    = generate_scan [text_chunk; image_chunk] None.
Proof.
  assert (Forall (λ chunk, ¬ chunk_breaks_edit chunk) [text_chunk; image_chunk])
    as Hok.
  { repeat constructor.
    - intros [H|(x & r & ct & H & Hc & Hp)]; [discriminate H|].
      injection H as <- <-. injection Hc as <-. discriminate Hp.
    - intros [H|(x & r & ct & H & Hc & Hp)]; [discriminate H|].
      injection H as <- <-. injection Hc as <-. discriminate Hp. }
  split; [exact Hok|].
  apply (proj2 chunk_tests_agree [text_chunk; image_chunk] None Hok).
Defined.

(** The sample chunk with no candidates: the generation loop passes it
    by, the edit loop ends in the error text. *)
Example empty_candidates_chunk_difference :
  generate_scan [empty_candidates_chunk; image_chunk] None = inr (Some sample_image)
  ∧ edit_scan [empty_candidates_chunk; image_chunk] None = inl index_error.
Proof. by vm_compute. Qed.

End tools_together.

(** ** Cost estimates *)

Section cost_estimate_properties.

Variable str_lower : string → string.

Implicit Types (room scope : string) (sq : Z).

Lemma scope_rates_lookup (c m f l : Z * Z) (k : string) :
  scope_rates c m f l !! k
  = if decide (k = "cosmetic") then Some c
    else if decide (k = "moderate") then Some m
    else if decide (k = "full") then Some f
    else if decide (k = "luxury") then Some l
    else None.
Proof.
  unfold scope_rates. rewrite !lookup_insert, lookup_empty.
  repeat case_decide; congruence.
Qed.

Lemma rates_lookup (k : string) :
  rates !! k
  = if decide (k = "kitchen")
    then Some (scope_rates (50, 100) (150, 250) (300, 500) (600, 1200))
    else if decide (k = "bathroom")
    then Some (scope_rates (75, 125) (200, 350) (400, 600) (800, 1500))
    else if decide (k = "bedroom")
    then Some (scope_rates (30, 60) (75, 150) (150, 300) (400, 800))
    else if decide (k = "living_room")
    then Some (scope_rates (40, 80) (100, 200) (200, 400) (500, 1000))
    else None.
Proof.
  unfold rates. rewrite !lookup_insert, lookup_empty.
  repeat case_decide; congruence.
Qed.

Lemma scope_rank_le scope : (scope_rank str_lower scope ≤ 3)%nat.
Proof. unfold scope_rank. repeat case_decide; lia. Qed.

(** The row used for a room: its own, or the living room's. *)
Lemma rates_row (r : string) :
  ∃ cosmetic moderate full luxury,
    (cosmetic, moderate, full, luxury)
      ∈ [((50, 100), (150, 250), (300, 500), (600, 1200));
         ((75, 125), (200, 350), (400, 600), (800, 1500));
         ((30, 60), (75, 150), (150, 300), (400, 800));
         ((40, 80), (100, 200), (200, 400), (500, 1000))]
    ∧ rates !! (if rates !! r is None then "living_room" else r)
      = Some (scope_rates cosmetic moderate full luxury).
Proof.
  rewrite (rates_lookup r).
  repeat case_decide; subst; simpl; eexists _, _, _, _;
    (split; [|reflexivity]); set_solver.
Qed.

(** The column used for a scope: its own, or the moderate one. *)
Lemma scope_column (c m f l : Z * Z) scope :
  let row := scope_rates c m f l in
  let level := if row !! str_lower scope is None then "moderate"
               else str_lower scope in
  (level, row !! level)
  = match scope_rank str_lower scope with
    | 0%nat => ("cosmetic", Some c)
    | 2%nat => ("full", Some f)
    | 3%nat => ("luxury", Some l)
    | _ => ("moderate", Some m)
    end.
Proof.
  intros row level. subst row level. unfold scope_rank.
  rewrite (scope_rates_lookup c m f l (str_lower scope)).
  repeat case_decide; simpl; rewrite ?scope_rates_lookup;
    repeat case_decide; try congruence;
    match goal with H : str_lower scope = _ |- _ => by rewrite H end.
Qed.

(** The estimate, spelled out: the row of the room (living_room when
    the room is unknown), the column of the scope's rank. *)
Lemma cost_estimate_run room :
  ∃ cosmetic moderate full luxury,
    (cosmetic, moderate, full, luxury)
      ∈ [((50, 100), (150, 250), (300, 500), (600, 1200));
         ((75, 125), (200, 350), (400, 600), (800, 1500));
         ((30, 60), (75, 150), (150, 300), (400, 800));
         ((40, 80), (100, 200), (200, 400), (500, 1000))]
    ∧ ∀ scope sq,
        cost_estimate str_lower room scope sq
        = let '(level, (low, high)) :=
            match scope_rank str_lower scope with
            | 0%nat => ("cosmetic", cosmetic)
            | 2%nat => ("full", full)
            | 3%nat => ("luxury", luxury)
            | _ => ("moderate", moderate)
            end in
          Some (mkCostEstimate (low * sq) (high * sq) level room sq).
Proof.
  destruct (rates_row (replace_char " " "_" (str_lower room)))
    as (c & m & f & l & Hrow & Hlookup).
  exists c, m, f, l. split; [done|]. intros scope sq.
  unfold cost_estimate. rewrite Hlookup. simpl.
  pose proof (scope_column c m f l scope) as Hcol. simpl in Hcol.
  destruct (scope_rank str_lower scope) as [|[|[|[|n]]]];
    injection Hcol as -> ->; simpl;
    [destruct c | destruct m | destruct f | destruct l | destruct m]; done.
Qed.

(** A room has a row of its own exactly if it is one of the four. *)
Lemma rates_known (k : string) :
  rates !! k = None ↔ k ∉ ["kitchen"; "bathroom"; "bedroom"; "living_room"].
Proof.
  rewrite rates_lookup, !elem_of_cons, elem_of_nil.
  repeat case_decide; (split; [intros ?|intros ?]); first [done | tauto].
Qed.

Lemma scope_rates_known (c m f l : Z * Z) (k : string) :
  scope_rates c m f l !! k = None
  ↔ k ∉ ["cosmetic"; "moderate"; "full"; "luxury"].
Proof.
  rewrite scope_rates_lookup, !elem_of_cons, elem_of_nil.
  repeat case_decide; (split; [intros ?|intros ?]); first [done | tauto].
Qed.

(** X16: the cost estimate never fails with a missing key, whatever
    room and scope are asked for: there is always a text.  The rates
    are those of the room (lower-cased, blanks replaced by underscores)
    when it is one of the four of the table, else those of the living
    room; of the scope (lower-cased) when it is one of the four levels,
    else the moderate ones.  The text echoes the room type and the
    square footage as given and names the scope level used. *)
Theorem cost_estimate_never_fails room scope sq :
  let room_key := replace_char " " "_" (str_lower room) in
  let room_used :=
    if decide (room_key ∈ ["kitchen"; "bathroom"; "bedroom"; "living_room"])
    then room_key else "living_room" in
  let scope_used :=
    if decide (str_lower scope ∈ ["cosmetic"; "moderate"; "full"; "luxury"])
    then str_lower scope else "moderate" in
  ∃ e row low high,
    cost_estimate str_lower room scope sq = Some e
    ∧ estimate_renovation_cost str_lower room scope sq = Some (cost_estimate_text e)
    ∧ rates !! room_used = Some row
    ∧ row !! scope_used = Some (low, high)
    ∧ total_low e = low * sq
    ∧ total_high e = high * sq
    ∧ estimate_scope_level e = scope_used
    ∧ estimate_scope_level e ∈ ["cosmetic"; "moderate"; "full"; "luxury"]
    ∧ estimate_room_type e = room
    ∧ estimate_square_footage e = sq.
Proof.
  intros room_key room_used scope_used.
  destruct (rates_row room_key) as (c & m & f & l & _ & Hrow).
  assert ((if rates !! room_key is None then "living_room" else room_key)
          = room_used) as Hroom.
  { subst room_used. pose proof (rates_known room_key) as Hknown.
    destruct (rates !! room_key); case_decide as Hin; try done.
    - discriminate (proj2 Hknown Hin).
    - by destruct (proj1 Hknown eq_refl). }
  rewrite Hroom in Hrow.
  assert ((if scope_rates c m f l !! str_lower scope is None
           then "moderate" else str_lower scope) = scope_used) as Hscope.
  { subst scope_used. pose proof (scope_rates_known c m f l (str_lower scope)) as Hknown.
    destruct (scope_rates c m f l !! str_lower scope); case_decide as Hin; try done.
    - discriminate (proj2 Hknown Hin).
    - by destruct (proj1 Hknown eq_refl). }
  assert (scope_used ∈ ["cosmetic"; "moderate"; "full"; "luxury"]) as Hlevel.
  { subst scope_used. case_decide; [done|]. rewrite !elem_of_cons. tauto. }
  assert (is_Some (scope_rates c m f l !! scope_used)) as [[low high] Hcol].
  { apply not_eq_None_Some. by intros Hnone%scope_rates_known. }
  unfold estimate_renovation_cost, cost_estimate. fold room_key.
  rewrite Hroom, Hrow. simpl. rewrite Hscope, Hcol. simpl.
  by eexists _, _, low, high.
Qed.

(** X17: the square footage is not validated.  For a non-negative one
    the range is ordered and non-negative, [0 <= low <= high]; for a
    negative one both bounds are negative and the range is inverted. *)
Theorem cost_estimate_bounds room scope sq e :
  cost_estimate str_lower room scope sq = Some e →
  (0 ≤ sq → 0 ≤ total_low e ≤ total_high e)
  ∧ (sq < 0 → total_high e < total_low e < 0).
Proof.
  destruct (cost_estimate_run room) as (c & m & f & l & Hrow & ->).
  repeat (apply elem_of_cons in Hrow as [[= -> -> -> ->]|Hrow]);
    [..|by apply elem_of_nil in Hrow];
    destruct (scope_rank str_lower scope) as [|[|[|[|n]]]]; simpl;
    intros [= <-]; simpl; lia.
Qed.

(** X18: a higher scope never costs less: for the same room and a
    non-negative square footage, the upper bound for a scope is at most
    the lower bound for any scope further up the ladder cosmetic,
    moderate, full, luxury (an unknown scope counts as moderate). *)
Theorem cost_estimate_scope_ladder room scope1 scope2 sq e1 e2 :
  0 ≤ sq →
  (scope_rank str_lower scope1 < scope_rank str_lower scope2)%nat →
  cost_estimate str_lower room scope1 sq = Some e1 →
  cost_estimate str_lower room scope2 sq = Some e2 →
  total_high e1 ≤ total_low e2.
Proof.
  intros Hsq Hrank.
  destruct (cost_estimate_run room) as (c & m & f & l & Hrow & Hrun).
  rewrite !Hrun.
  pose proof (scope_rank_le scope1) as Hle1.
  pose proof (scope_rank_le scope2) as Hle2.
  repeat (apply elem_of_cons in Hrow as [[= -> -> -> ->]|Hrow]);
    [..|by apply elem_of_nil in Hrow];
    destruct (scope_rank str_lower scope1) as [|[|[|[|n1]]]];
    destruct (scope_rank str_lower scope2) as [|[|[|[|n2]]]]; simpl;
    try lia; intros [= <-] [= <-]; simpl; lia.
Qed.

End cost_estimate_properties.

Example cost_estimate_sample :
  estimate_renovation_cost ascii_lower "Living Room" "FULL" 200
  = Some "💰 Estimated Cost: $40,000 - $80,000 (full Living Room renovation, ~200 sq ft)".
Proof. by vm_compute. Qed.

Lemma cost_estimate_bounds_witness :
  let e := mkCostEstimate 40000 80000 "full" "Living Room" 200 in
  cost_estimate ascii_lower "Living Room" "FULL" 200 = Some e
  ∧ 0 ≤ total_low e ≤ total_high e.
Proof.
  intros e.
  assert (cost_estimate ascii_lower "Living Room" "FULL" 200 = Some e) as Hrun
    by (by vm_compute).
  split; [exact Hrun|].
  apply (proj1 (cost_estimate_bounds ascii_lower "Living Room" "FULL" 200 e Hrun)).
  lia.
Defined.

Lemma cost_estimate_scope_ladder_witness :
  let e1 := mkCostEstimate 6000 12000 "cosmetic" "kitchen" 120 in
  let e2 := mkCostEstimate 18000 30000 "moderate" "kitchen" 120 in
  (scope_rank ascii_lower "cosmetic" < scope_rank ascii_lower "gut job")%nat
  ∧ cost_estimate ascii_lower "kitchen" "cosmetic" 120 = Some e1
  ∧ cost_estimate ascii_lower "kitchen" "gut job" 120 = Some e2
  ∧ total_high e1 ≤ total_low e2.
Proof.
  intros e1 e2.
  assert (scope_rank ascii_lower "cosmetic" < scope_rank ascii_lower "gut job")%nat
    as Hrank by (vm_compute; lia).
  assert (cost_estimate ascii_lower "kitchen" "cosmetic" 120 = Some e1) as H1
    by (by vm_compute).
  assert (cost_estimate ascii_lower "kitchen" "gut job" 120 = Some e2) as H2
    by (by vm_compute).
  split; [exact Hrank|]. split; [exact H1|]. split; [exact H2|].
  apply (cost_estimate_scope_ladder ascii_lower "kitchen" "cosmetic" "gut job" 120
           e1 e2); [lia | exact Hrank | exact H1 | exact H2].
Defined.

(** ** The retry loop of the front end *)

Section retry_properties.

Variable str_lower : string → string.

Implicit Types (run : nat → exn + string).

Ltac retry_cases run :=
  cbv zeta; unfold run_with_retries, MAX_RETRIES, RETRY_DELAY; simpl;
  destruct (run 0%nat) as [e0|r0] eqn:Hrun0; simpl;
    [destruct (is_overloaded str_lower e0) eqn:Hover0; simpl;
       [destruct (run 1%nat) as [e1|r1] eqn:Hrun1; simpl;
          [destruct (is_overloaded str_lower e1) eqn:Hover1; simpl;
             [destruct (run 2%nat) as [e2|r2] eqn:Hrun2; simpl;
                [destruct (is_overloaded str_lower e2) eqn:Hover2; simpl|]
             |]
          |]
       |]
    |].

(** X19: the loop is bounded: it starts between one and three attempts,
    sleeps only between attempts, first 5 then 10 seconds, so at most 15
    seconds in all. *)
Theorem retries_bounded run :
  let r := run_with_retries str_lower run in
  (1 ≤ attempts_started r ≤ 3)%nat
  ∧ slept r `prefix_of` [5; 10]
  ∧ (length (slept r) < attempts_started r)%nat
  ∧ foldr Z.add 0 (slept r) ≤ 15.
Proof.
  retry_cases run; unfold RETRY_DELAY; simpl;
    (split; [lia|]); (split; [|split; [simpl; lia|simpl; lia]]).
  all: first [ by exists [5; 10] | by exists [10] | by exists [] ].
Qed.

(** X20: only overload errors are retried: every attempt but the last
    one ended in an exception whose text contains "503" or, lower-cased,
    "overloaded"; nothing is attempted after an answer or after any
    other error. *)
Theorem retries_only_after_overload run k :
  (S k < attempts_started (run_with_retries str_lower run))%nat →
  ∃ e, run k = inl e ∧ is_overloaded str_lower e = true.
Proof.
  retry_cases run; intros Hk; try lia.
  all: assert (k = 0 ∨ k = 1)%nat as [-> | ->] by lia; eauto; lia.
Qed.

(** X21: how the loop ends.  Without error exactly when the last attempt
    started returned an answer, which is then the final response; with
    an error the final response is empty, the last notice is an error
    notice, and the response is not shown. *)
Theorem retries_outcome run :
  let r := run_with_retries str_lower run in
  let last_attempt := pred (attempts_started r) in
  match run last_attempt with
  | inr response =>
      error_occurred r = false ∧ final_response r = response
      ∧ notices r = ServerBusy <$> slept r
  | inl e =>
      error_occurred r = true ∧ final_response r = ""
      ∧ shows_response r = false
      ∧ last (notices r)
        = Some (if is_overloaded str_lower e then ServersOverloaded
                else ErrorOccurred e)
      ∧ (is_overloaded str_lower e = true → attempts_started r = MAX_RETRIES)
  end.
Proof.
  retry_cases run; rewrite ?Hrun0, ?Hrun1, ?Hrun2, ?Hover0, ?Hover1, ?Hover2;
    repeat split; try done; intros; congruence.
Qed.

End retry_properties.

Lemma retries_only_after_overload_witness :
  (2 < attempts_started (run_with_retries ascii_lower busy_then_answer))%nat
  ∧ ∃ e, busy_then_answer 1 = inl e ∧ is_overloaded ascii_lower e = true.
Proof.
  assert (2 < attempts_started (run_with_retries ascii_lower busy_then_answer))%nat
    as Hk by (vm_compute; lia).
  split; [exact Hk|].
  apply (retries_only_after_overload ascii_lower busy_then_answer 1 Hk).
Defined.

Example busy_then_answer_run :
  run_with_retries ascii_lower busy_then_answer
  = mkRetryState "Saved as: **kitchen_renovation_v1.png**" false [5; 10]
      [ServerBusy 5; ServerBusy 10] 3.
Proof. by vm_compute. Qed.

(** ** The image gallery of the front end *)

Section gallery_properties.

Variable save_path_of : string → string.
Variable write_error : string → option write_failure.
Variable remove_fails : string → bool.

Implicit Types (g : Gallery) (d : gmap string string) (name : string).

Abbreviation names g := (image_name <$> uploaded_images g).

Lemma category_name_option (c : category) : category_name c ∈ category_options.
Proof. destruct c; repeat constructor. Qed.

Lemma list_index_option (x : string) :
  x ∈ category_options → is_Some (list_index x category_options).
Proof.
  unfold category_options. simpl.
  intros Hin. repeat (apply elem_of_cons in Hin as [-> | Hin]); [by eexists..|].
  by apply elem_of_nil in Hin.
Qed.

Lemma upload_file_ok uploaded_file g :
  gallery_ok g →
  let r := upload_file save_path_of write_error uploaded_file g in
  gallery_ok r.2 ∧ names g ⊆ names r.2
  ∧ (r.1 = None → file_name uploaded_file ∈ names r.2).
Proof.
  unfold upload_file. intros (Hnodup & Hdom & Hvalid).
  case_bool_decide as Hin; simpl.
  - split; [done|]. by split.
  - destruct (write_error _) as [failure|]; simpl.
    { split; [done|]. by split. }
    unfold gallery_ok. simpl. rewrite !fmap_app. simpl.
    split; [split; [|split]|split].
    + apply NoDup_app. split; [done|]. split; [|apply NoDup_singleton].
      intros x Hx ->%list_elem_of_singleton. done.
    + intros name. rewrite elem_of_app, list_elem_of_singleton, Hdom.
      destruct (decide (name = file_name uploaded_file)) as [->|Hne].
      * rewrite lookup_insert_eq. split; eauto.
      * rewrite lookup_insert_ne by done. split; [by intros [?|?]|by left].
    + intros name c.
      destruct (decide (name = file_name uploaded_file)) as [->|Hne].
      * rewrite lookup_insert_eq. intros [= <-]. apply (category_name_option CurrentRoom).
      * rewrite lookup_insert_ne by done. apply Hvalid.
    + intros x Hx. apply elem_of_app. by left.
    + intros _. apply elem_of_app. right. by apply list_elem_of_singleton.
Qed.

Lemma upload_files_ok uploaded_files g :
  gallery_ok g →
  let r := upload_files save_path_of write_error uploaded_files g in
  gallery_ok r.2 ∧ names g ⊆ names r.2
  ∧ (r.1 = None → ∀ f, f ∈ uploaded_files → file_name f ∈ names r.2).
Proof.
  revert g. induction uploaded_files as [|f fs IH]; intros g Hok; simpl.
  - split; [done|]. split; [done|]. intros _ f Hf. by apply elem_of_nil in Hf.
  - pose proof (upload_file_ok f g Hok) as (Hok1 & Hsub1 & Hin1).
    destruct (upload_file save_path_of write_error f g) as [[e|] g1]; simpl in *.
    + split; [done|]. by split.
    + destruct (IH g1 Hok1) as (Hok2 & Hsub2 & Hall).
      split; [done|]. split; [by etrans|].
      intros Hnone f' [->|Hf']%elem_of_cons; [by apply Hsub2, Hin1|by apply Hall].
Qed.

Lemma categorize_images_ok chosen (images : list ImageInfo)
    (categories : gmap string string) :
  (∀ img, img ∈ images → is_Some (categories !! image_name img)) →
  (∀ name c, categories !! name = Some c → c ∈ category_options) →
  ∃ categories',
    categorize_images chosen images categories = (None, categories')
    ∧ ∀ name, categories' !! name
              = if decide (name ∈ image_name <$> images)
                then Some (category_name (chosen name))
                else categories !! name.
Proof.
  revert categories. induction images as [|img rest IH]; intros categories Hdom Hvalid.
  - by exists categories.
  - cbn [categorize_images].
    destruct (Hdom img) as [c Hc]; [by left|]. rewrite Hc.
    change (default "current_room" (Some c)) with c.
    destruct (list_index_option c) as [k ->]; [by eapply Hvalid|].
    destruct (IH (<[image_name img := category_name (chosen (image_name img))]>
                    categories)) as (cats' & -> & Hlookup).
    + intros img' Himg'.
      destruct (decide (image_name img' = image_name img)) as [->|Hne].
      * rewrite lookup_insert_eq. eauto.
      * rewrite lookup_insert_ne by done. apply Hdom. by right.
    + intros name c'.
      destruct (decide (name = image_name img)) as [->|Hne].
      * rewrite lookup_insert_eq. intros [= <-]. apply category_name_option.
      * rewrite lookup_insert_ne by done. apply Hvalid.
    + exists cats'. split; [done|]. intros name. rewrite Hlookup, fmap_cons.
      destruct (decide (name = image_name img)) as [->|Hne].
      * rewrite lookup_insert_eq.
        rewrite (decide_True (P := image_name img ∈ image_name img :: _))
          by (by left).
        by case_decide.
      * rewrite lookup_insert_ne by done.
        case_decide as Hrest; case_decide as Hall; try done.
        -- destruct Hall. by right.
        -- by apply elem_of_cons in Hall as [?|?].
Qed.

Lemma categorize_ok chosen g :
  gallery_ok g →
  (categorize chosen g).1 = None ∧ gallery_ok (categorize chosen g).2.
Proof.
  intros (Hnodup & Hdom & Hvalid). unfold categorize.
  destruct (categorize_images_ok chosen (uploaded_images g) (image_categories g))
    as (cats' & -> & Hlookup); [|done|].
  { intros img Himg. apply Hdom. by apply list_elem_of_fmap_2. }
  simpl. split; [done|]. split; [done|]. split.
  - intros name. rewrite Hlookup. case_decide as Hin; [|apply Hdom].
    split; eauto.
  - intros name c. rewrite Hlookup. case_decide; [|apply Hvalid].
    intros [= <-]. apply category_name_option.
Qed.

Lemma names_filter (n : string) (l : list ImageInfo) :
  image_name <$> filter (λ img, image_name img ≠ n) l
  = filter (λ x, x ≠ n) (image_name <$> l).
Proof.
  induction l as [|img l IH]; [done|].
  rewrite fmap_cons, !filter_cons.
  destruct (decide (image_name img ≠ n)); by rewrite ?fmap_cons, IH.
Qed.

Lemma remove_image_ok img_info g :
  gallery_ok g → gallery_ok (remove_image remove_fails img_info g).
Proof.
  intros (Hnodup & Hdom & Hvalid). unfold remove_image, gallery_ok. simpl.
  rewrite names_filter.
  split; [by apply NoDup_filter|]. split.
  - intros name. rewrite list_elem_of_filter, Hdom.
    destruct (decide (name = image_name img_info)) as [->|Hne].
    + rewrite lookup_delete_eq. split; [by intros [? _]|by intros [? ?]].
    + rewrite lookup_delete_ne by done. split; [by intros [_ ?]|done].
  - intros name c.
    destruct (decide (name = image_name img_info)) as [->|Hne].
    + by rewrite lookup_delete_eq.
    + rewrite lookup_delete_ne by done. apply Hvalid.
Qed.

Lemma clear_all_ok g : gallery_ok (clear_all remove_fails g).
Proof.
  unfold clear_all, gallery_ok. simpl. split; [apply NoDup_nil_2|]. split.
  - intros name. rewrite lookup_empty. split; [by intros ?%elem_of_nil|by intros [? ?]].
  - intros name c. by rewrite lookup_empty.
Qed.

Lemma gallery_step_ok ev g :
  gallery_ok g →
  gallery_ok (gallery_step save_path_of write_error remove_fails ev g).
Proof.
  intros Hok. destruct ev as [fs|chosen|img|]; simpl.
  - by apply upload_files_ok.
  - by apply categorize_ok.
  - by apply remove_image_ok.
  - apply clear_all_ok.
Qed.

Lemma gallery_run_ok events g :
  gallery_ok g →
  gallery_ok (gallery_run save_path_of write_error remove_fails events g).
Proof.
  revert g. induction events as [|ev events IH]; intros g Hok; simpl; [done|].
  apply IH. by apply gallery_step_ok.
Qed.

Lemma empty_gallery_ok d : gallery_ok (empty_gallery d).
Proof.
  split; [apply NoDup_nil_2|]. split.
  - intros name. simpl. rewrite lookup_empty.
    split; [by intros ?%elem_of_nil|by intros [? ?]].
  - intros name c. simpl. by rewrite lookup_empty.
Qed.

(** X22: whatever the user does in the sidebar - uploads, category
    choices, removals, Clear All, in any order - the gallery stays well
    formed: image names are distinct, every image has a category, and
    every stored category is one of the three options and belongs to an
    image.  So the [index] lookup of the select boxes never raises
    [ValueError], and every image ends up with the category chosen for
    it. *)
Theorem gallery_stays_well_formed events d chosen :
  let g := gallery_run save_path_of write_error remove_fails events
             (empty_gallery d) in
  gallery_ok g
  ∧ (categorize chosen g).1 = None
  ∧ ∀ img, img ∈ uploaded_images g →
           image_categories (categorize chosen g).2 !! image_name img
           = Some (category_name (chosen (image_name img))).
Proof.
  intros g.
  assert (gallery_ok g) as Hok by apply gallery_run_ok, empty_gallery_ok.
  split; [done|]. split; [by apply categorize_ok|].
  intros img Himg. destruct Hok as (_ & Hdom & Hvalid). unfold categorize.
  destruct (categorize_images_ok chosen (uploaded_images g) (image_categories g))
    as (cats' & -> & Hlookup); [|done|].
  { intros img' Himg'. apply Hdom. by apply list_elem_of_fmap_2. }
  simpl. rewrite Hlookup, decide_True; [done|]. by apply list_elem_of_fmap_2.
Qed.

(** X23: the upload loop only looks at names.  Files whose names are
    all registered change nothing, neither the gallery nor the disk,
    whatever they contain; so running the loop again with the files it
    just handled (as happens on every rerun of the script) is a no-op. *)
Theorem upload_skips_registered_names uploaded_files g :
  ((∀ f, f ∈ uploaded_files → file_name f ∈ names g) →
   upload_files save_path_of write_error uploaded_files g = (None, g))
  ∧ (gallery_ok g →
     let r := upload_files save_path_of write_error uploaded_files g in
     r.1 = None →
     upload_files save_path_of write_error uploaded_files r.2 = (None, r.2)).
Proof.
  assert (∀ fs g0, (∀ f, f ∈ fs → file_name f ∈ names g0) →
            upload_files save_path_of write_error fs g0 = (None, g0)) as Hskip.
  { clear. intros fs g0. induction fs as [|f fs IH]; intros Hall; simpl; [done|].
    unfold upload_file. rewrite bool_decide_true by (apply Hall; by left).
    apply IH. intros f' Hf'. apply Hall. by right. }
  split; [apply Hskip|].
  intros Hok r Hnone. apply Hskip.
  by apply (upload_files_ok uploaded_files g Hok).
Qed.

Lemma images_of_partition (categories : gmap string string) (images : list ImageInfo) :
  (∀ img, img ∈ images →
          ∃ c, categories !! image_name img = Some (category_name c)) →
  (length (filter (λ img, categories !! image_name img
                          = Some (category_name CurrentRoom)) images)
   + length (filter (λ img, categories !! image_name img
                            = Some (category_name Inspiration)) images)
   + length (filter (λ img, categories !! image_name img
                            = Some (category_name Reference)) images)
   = length images)%nat.
Proof.
  induction images as [|img rest IH]; intros Hall; [done|].
  rewrite !filter_cons.
  specialize (IH (λ img' Himg', Hall img' (proj2 (elem_of_cons _ _ _) (or_intror Himg')))).
  destruct (Hall img) as [c Hc]; [by left|]. rewrite Hc.
  destruct c; repeat case_decide; simplify_eq/=; lia.
Qed.

(** X24: the three category lists of the gallery split the uploaded
    images: at any time every image is shown under exactly one of
    Current Room, Inspiration and Reference, so the three counts add up
    to the number of images. *)
Theorem gallery_categories_partition events d :
  let g := gallery_run save_path_of write_error remove_fails events
             (empty_gallery d) in
  (length (images_of CurrentRoom g) + length (images_of Inspiration g)
   + length (images_of Reference g) = length (uploaded_images g))%nat.
Proof.
  intros g.
  assert (gallery_ok g) as (_ & Hdom & Hvalid)
    by apply gallery_run_ok, empty_gallery_ok.
  apply images_of_partition. intros img Himg.
  destruct (proj1 (Hdom (image_name img))) as [c Hc];
    [by apply list_elem_of_fmap_2|].
  specialize (Hvalid _ _ Hc). unfold category_options in Hvalid. simpl in Hvalid.
  repeat (apply elem_of_cons in Hvalid as [-> | Hvalid]);
    [by exists CurrentRoom | by exists Inspiration | by exists Reference|].
  by apply elem_of_nil in Hvalid.
Qed.

End gallery_properties.

Lemma upload_skips_registered_names_witness :
  let g := (upload_files sample_save_path (λ _, None) [sample_photo]
              (empty_gallery ∅)).2 in
  (∀ f, f ∈ [sample_photo_retaken] → file_name f ∈ image_name <$> uploaded_images g)
  ∧ upload_files sample_save_path (λ _, None) [sample_photo_retaken] g = (None, g)
  ∧ gallery_disk g !! "/app/messy kitchen.jpg" = Some "JPEG"
  ∧ upload_files sample_save_path (λ _, None) [sample_photo] g = (None, g).
Proof.
  intros g.
  assert (∀ f, f ∈ [sample_photo_retaken] →
               file_name f ∈ image_name <$> uploaded_images g) as Hreg.
  { intros f ->%list_elem_of_singleton. vm_compute. left. }
  split; [exact Hreg|]. split.
  - apply (proj1 (upload_skips_registered_names sample_save_path (λ _, None)
                    [sample_photo_retaken] g) Hreg).
  - split; [reflexivity|].
    apply (proj2 (upload_skips_registered_names sample_save_path (λ _, None)
                    [sample_photo] (empty_gallery ∅)) (empty_gallery_ok ∅)).
    reflexivity.
Defined.

(** ** A local write that fails *)

Section unsaved_rendering.

Implicit Types (w : World) (s : Sys) (a f : string) (c : call).

(** X25: a failed local write does not stop a call.  When the image
    model answers the request with an image and writing the file
    raises, the call still replies with success and commits: the store
    names the file as the current one of its asset and as the last
    rendering.  On the disk the file is as before when [open] raised
    (so it does not exist if it did not before), and holds only the
    bytes that got through when the write raised later; no other file
    is touched. *)
Theorem failed_write_still_commits c s a content_parts blob failure :
  stream_request c s = Some (a, content_parts) →
  stream_result c content_parts = inr (Some blob) →
  let v := current_version_of (session s) a + 1 in
  let f := create_versioned_filename a v "png" in
  open_write_error (call_world c) f = Some failure →
  let r := run_call c s in
  r.1 = inr (success_reply c f v a)
  ∧ current_filename_of (session r.2) a = Some f
  ∧ last_generated_rendering (session r.2) = Some f
  ∧ disk r.2 !! f
    = match bytes_written failure with
      | None => disk s !! f
      | Some n => Some (String.substring 0 n (default "" (data blob)))
      end
  ∧ ∀ name, name ≠ f → disk r.2 !! name = disk s !! name.
Proof.
  intros Hreq Hres v f Hwrite r. subst v f r.
  pose proof (run_call_stream c s a content_parts Hreq) as Hrun. simpl in Hrun.
  rewrite Hres in Hrun. destruct Hrun as (s' & -> & Hc & Hd & _). simpl.
  destruct Hc as [_ Hf _ _ Hlast].
  split; [done|]. split; [by rewrite Hf, decide_True|]. split; [done|].
  rewrite Hd. split.
  - unfold disk_after_write, failed_write. rewrite Hwrite.
    destruct (bytes_written failure); [by rewrite lookup_insert_eq | done].
  - intros name Hne. by apply disk_after_write_other.
Qed.

Lemma failed_write_still_commits_witness :
  let c1 := CallGenerate read_only_disk_world (AsObject kitchen_request) in
  let c2 := CallEdit full_disk_world (AsObject kitchen_edit) in
  ((run_call c1 fresh_session).1
   = inr (RenderingGenerated "kitchen_renovation_v1.png" 1 "kitchen_renovation")
   ∧ disk (run_call c1 fresh_session).2 !! "kitchen_renovation_v1.png" = None)
  ∧ ((run_call c2 session_after_generate).1
     = inr (RenderingEdited "kitchen_renovation_v2.png" 2 "kitchen_renovation")
     ∧ disk (run_call c2 session_after_generate).2 !! "kitchen_renovation_v2.png"
       = Some "P").
Proof.
  intros c1 c2. split.
  - destruct (failed_write_still_commits c1 fresh_session "kitchen_renovation"
                [Part_from_text "a bright modern kitchen"] sample_image
                (WriteFailure (Exn OtherException "Read-only file system") None)
                eq_refl eq_refl eq_refl)
      as (Hreply & _ & _ & Hdisk & _).
    split; [exact Hreply | exact Hdisk].
  - destruct (failed_write_still_commits c2 session_after_generate
                "kitchen_renovation"
                [mkPart (Some (mkBlob (Some "image/png") (Some "PNG"))) None;
                 Part_from_text "make the cabinets cream"]
                sample_image
                (WriteFailure (Exn OtherException "No space left on device")
                   (Some 1%nat))
                eq_refl eq_refl eq_refl)
      as (Hreply & _ & _ & Hdisk & _).
    split; [exact Hreply | exact Hdisk].
Defined.

End unsaved_rendering.
